(** * The analysis graph node of paddle/fluid/inference/analysis/node.h

    A shallow embedding of [AnyAttr], [Node], its subclasses [Value],
    [Function] and [FunctionBlock], and of the owning [NodeMap], followed by
    the properties of the node contract.

    Conventions of the embedding:
    - a C++ member function that mutates [*this] takes the object and
      returns the new object; one that can throw returns a [result];
    - [PADDLE_ENFORCE] failing and [boost::get] failing throw, which is the
      [Err] case; no source path mutates the object before it throws except
      where that is said, so [Err] carries no state;
    - a [Node *] is the position of the pointee in [nodes_] of the owning
      [NodeMap] (the storage behind each [unique_ptr] never moves and
      [nodes_] never shrinks);
    - [std::unordered_map<std::string, AnyAttr>] is a [gmap string AnyAttr]. *)

From Stdlib Require Import Ascii.
From stdpp Require Import gmap strings list fin_maps pretty.

Open Scope Z_scope.

(** ** Errors and results *)

Inductive error : Type :=
  | TypeMismatch   (* PADDLE_ENFORCE(type_index_ == typeid(T), "fetch error type") *)
  | BadGet         (* boost::bad_get thrown by boost::get<T> *)
  | BadCast        (* dereferencing the null result of dynamic_cast<Subclass *> *)
  | OutOfRange.    (* a NodeMap lookup with an identity that was never assigned *)

Inductive result (A : Type) : Type :=
  | Ok (a : A)
  | Err (e : error).

Arguments Ok {A} a.
Arguments Err {A} e.

Definition bind {A B : Type} (r : result A) (k : A -> result B) : result B :=
  match r with
  | Ok a => k a
  | Err e => Err e
  end.

Notation "'try' x <- r 'in' k" := (bind r (fun x => k))
  (at level 10, x name, r at level 100, k at level 200).

Definition is_Ok {A : Type} (r : result A) : bool :=
  match r with Ok _ => true | Err _ => false end.

(** ** AnyAttr *)

(** The alternatives of
    [boost::variant<bool, float, int32_t, int64_t, void *, std::string>],
    in the order of the declaration. *)
Inductive scalar : Type :=
  | TBool | TFloat | TInt32 | TInt64 | TPointer | TString.

Global Instance scalar_eq_dec : EqDecision scalar.
Proof. solve_decision. Defined.

(** A [float] is carried as its IEEE-754 binary32 bit pattern ([0] is
    [+0.0f]), a [void *] as its address ([0] is the null pointer), the two
    integer types as the integer they hold. *)
Definition float : Type := N.
Definition int32_t : Type := Z.
Definition int64_t : Type := Z.
Definition pointer : Type := N.
Definition nullptr : pointer := 0%N.

Definition cpp (T : scalar) : Type :=
  match T with
  | TBool => bool
  | TFloat => float
  | TInt32 => int32_t
  | TInt64 => int64_t
  | TPointer => pointer
  | TString => string
  end.

(** [T()], the value-initialised [T]. *)
Definition T_init (T : scalar) : cpp T :=
  match T with
  | TBool => false
  | TFloat => 0%N
  | TInt32 => 0
  | TInt64 => 0
  | TPointer => nullptr
  | TString => EmptyString
  end.

Inductive any_t : Type :=
  | any_bool (b : bool)
  | any_float (f : float)
  | any_int32 (i : int32_t)
  | any_int64 (i : int64_t)
  | any_pointer (p : pointer)
  | any_string (s : string).

(** [any_data_ = v] for a [v] of type [T]. *)
Definition any_of (T : scalar) : cpp T -> any_t :=
  match T with
  | TBool => any_bool
  | TFloat => any_float
  | TInt32 => any_int32
  | TInt64 => any_int64
  | TPointer => any_pointer
  | TString => any_string
  end.

(** [boost::get<T>(any_data_)]: the held value when the variant holds a [T],
    [None] (the throw of [boost::bad_get]) otherwise. *)
Definition boost_get (T : scalar) (d : any_t) : option (cpp T) :=
  match T return option (cpp T) with
  | TBool => match d with any_bool b => Some b | _ => None end
  | TFloat => match d with any_float f => Some f | _ => None end
  | TInt32 => match d with any_int32 i => Some i | _ => None end
  | TInt64 => match d with any_int64 i => Some i | _ => None end
  | TPointer => match d with any_pointer p => Some p | _ => None end
  | TString => match d with any_string s => Some s | _ => None end
  end.

(** [std::type_index]: [typeid(AnyAttr)] marks a slot nobody has read yet. *)
Inductive type_index : Type :=
  | typeid_AnyAttr
  | typeid (T : scalar).

Global Instance type_index_eq_dec : EqDecision type_index.
Proof. solve_decision. Defined.

Record AnyAttr : Type := mkAnyAttr {
  any_data_ : any_t;
  type_index_ : type_index
}.

(** [AnyAttr{}]: a default-constructed [boost::variant] holds its first
    alternative, value-initialised. *)
Definition AnyAttr_new : AnyAttr :=
  {| any_data_ := any_bool false; type_index_ := typeid_AnyAttr |}.

(** [template <typename T> T &As()].  The reference it returns is the pair
    of the value read through it and the attribute after the call. *)
Definition As (T : scalar) (a : AnyAttr) : result (cpp T * AnyAttr) :=
  try a' <- (if decide (type_index_ a = typeid_AnyAttr)
             then Ok {| any_data_ := any_of T (T_init T);
                        type_index_ := typeid T |}
             else if decide (type_index_ a = typeid T)
                  then Ok a
                  else Err TypeMismatch) in
  match boost_get T (any_data_ a') with
  | Some v => Ok (v, a')
  | None => Err BadGet
  end.

(** Assignment through the [T &] that [As<T>()] returned. *)
Definition store (T : scalar) (v : cpp T) (a : AnyAttr) : AnyAttr :=
  {| any_data_ := any_of T v; type_index_ := type_index_ a |}.

(** The statement [a.As<T>() = v;]. *)
Definition As_assign (T : scalar) (v : cpp T) (a : AnyAttr) : result AnyAttr :=
  try r <- As T a in Ok (store T v r.2).

Definition Bool := As TBool.
Definition Float := As TFloat.
Definition Int32 := As TInt32.
Definition Int64 := As TInt64.
Definition Pointer := As TPointer.
Definition String := As TString.

(** ** The attribute table of a node *)

(** [attrs_[name]]: [operator[]] inserts a default-constructed [AnyAttr]
    when the key is missing, and returns the slot. *)
Definition attrs_at (name : string) (m : gmap string AnyAttr)
  : AnyAttr * gmap string AnyAttr :=
  match m !! name with
  | Some a => (a, m)
  | None => (AnyAttr_new, <[name := AnyAttr_new]> m)
  end.

(** [attr(name).As<T>()] on the table: the slot is updated in place. *)
Definition attrs_As (T : scalar) (name : string) (m : gmap string AnyAttr)
  : result (cpp T * gmap string AnyAttr) :=
  let '(a, m1) := attrs_at name m in
  try r <- As T a in Ok (r.1, <[name := r.2]> m1).

(** [attr(name).As<T>() = v;] on the table. *)
Definition attrs_assign (T : scalar) (name : string) (v : cpp T)
    (m : gmap string AnyAttr) : result (gmap string AnyAttr) :=
  let '(a, m1) := attrs_at name m in
  try a' <- As_assign T v a in Ok (<[name := a']> m1).

(** The type a slot is locked to, if any. *)
Definition slot_type (name : string) (m : gmap string AnyAttr) : type_index :=
  match m !! name with
  | Some a => type_index_ a
  | None => typeid_AnyAttr
  end.

(** ** Node *)

(** [enum class Type { kNone = -1, kFunction, kValue, kFunctionBlock }]. *)
Inductive NodeType : Type :=
  | kNone | kFunction | kValue | kFunctionBlock.

Global Instance NodeType_eq_dec : EqDecision NodeType.
Proof. solve_decision. Defined.

(** The enumerator values. *)
Definition NodeType_value (t : NodeType) : Z :=
  match t with
  | kNone => -1
  | kFunction => 0
  | kValue => 1
  | kFunctionBlock => 2
  end.

(** [enum class DataType { kInt32, kInt64, kFloat32, kFloat64 }]. *)
Inductive DataType : Type :=
  | kInt32 | kInt64 | kFloat32 | kFloat64.

Definition Dims : Type := list Z.

(** Modelled from the spec: [device.h], which declares [Device], is not
    among the sources; the placement tag is opaque to the node, which only
    stores it and returns it. *)
Definition Device : Type := N.

(** Modelled from the spec: [dot.h], which declares [Dot::Attr], is not
    among the sources; a display attribute is a (key, value) pair, built
    as [Dot::Attr(key, value)]. *)
Record Dot_Attr : Type := mkDot_Attr {
  dot_name : string;
  dot_value : string
}.

Abbreviation NodePtr := nat (only parsing).

(** The most derived class of a node object, with the members that class
    adds.  [data_type_] and [device_] have no initialiser: [None] is a
    member that was never written. *)
Inductive Derived : Type :=
  | Node_
  | Value_ (data_type_ : option DataType) (dims_ : Dims)
           (device_ : option Device)
  | Function_ (func_type_ : string)
  | FunctionBlock_ (subgraph : list NodePtr).

Record Node : Type := mkNode {
  id_ : Z;
  name_ : string;
  type_ : NodeType;
  deleted_ : bool;
  attrs_ : gmap string AnyAttr;
  inlinks : list NodePtr;
  outlinks : list NodePtr;
  derived : Derived
}.

(** [std::to_string(int)]: the decimal digits, after a minus sign when the
    number is negative. *)
Definition to_string (i : Z) : string := pretty i.

Definition id (n : Node) : Z := id_ n.
Definition name (n : Node) : string := name_ n.
Definition type (n : Node) : NodeType := type_ n.
Definition deleted (n : Node) : bool := deleted_ n.

Definition set_attrs (m : gmap string AnyAttr) (n : Node) : Node :=
  {| id_ := id_ n; name_ := name_ n; type_ := type_ n;
     deleted_ := deleted_ n; attrs_ := m;
     inlinks := inlinks n; outlinks := outlinks n; derived := derived n |}.

(** [attr(name).As<T>()]: [attr] is [const], [attrs_] is [mutable]. *)
Definition attr_As (T : scalar) (name : string) (n : Node)
  : result (cpp T * Node) :=
  try r <- attrs_As T name (attrs_ n) in Ok (r.1, set_attrs r.2 n).

(** [attr(name).As<T>() = v;]. *)
Definition attr_assign (T : scalar) (name : string) (v : cpp T) (n : Node)
  : result Node :=
  try m <- attrs_assign T name v (attrs_ n) in Ok (set_attrs m n).

Definition SetPbDesc (pb : pointer) (n : Node) : result Node :=
  attr_assign TPointer "pb_desc" pb n.

Definition pb_desc (n : Node) : result (pointer * Node) :=
  attr_As TPointer "pb_desc" n.

Definition SetPbMsg (s : string) (n : Node) : result Node :=
  attr_assign TString "pb_msg" s n.

Definition pb_msg (n : Node) : result (string * Node) :=
  attr_As TString "pb_msg" n.

Definition SetDeleted (n : Node) : Node :=
  {| id_ := id_ n; name_ := name_ n; type_ := type_ n;
     deleted_ := true; attrs_ := attrs_ n;
     inlinks := inlinks n; outlinks := outlinks n; derived := derived n |}.

Definition SetName (s : string) (n : Node) : Node :=
  {| id_ := id_ n; name_ := s; type_ := type_ n;
     deleted_ := deleted_ n; attrs_ := attrs_ n;
     inlinks := inlinks n; outlinks := outlinks n; derived := derived n |}.

Definition SetType (t : NodeType) (n : Node) : Node :=
  {| id_ := id_ n; name_ := name_ n; type_ := t;
     deleted_ := deleted_ n; attrs_ := attrs_ n;
     inlinks := inlinks n; outlinks := outlinks n; derived := derived n |}.

(** Assignment to the public members [inlinks] and [outlinks]. *)
Definition set_inlinks (l : list NodePtr) (n : Node) : Node :=
  {| id_ := id_ n; name_ := name_ n; type_ := type_ n;
     deleted_ := deleted_ n; attrs_ := attrs_ n;
     inlinks := l; outlinks := outlinks n; derived := derived n |}.

Definition set_outlinks (l : list NodePtr) (n : Node) : Node :=
  {| id_ := id_ n; name_ := name_ n; type_ := type_ n;
     deleted_ := deleted_ n; attrs_ := attrs_ n;
     inlinks := inlinks n; outlinks := l; derived := derived n |}.

Definition set_derived (d : Derived) (n : Node) : Node :=
  {| id_ := id_ n; name_ := name_ n; type_ := type_ n;
     deleted_ := deleted_ n; attrs_ := attrs_ n;
     inlinks := inlinks n; outlinks := outlinks n; derived := d |}.

Definition IsFunction (n : Node) : bool := bool_decide (type_ n = kFunction).
Definition IsValue (n : Node) : bool := bool_decide (type_ n = kValue).
Definition IsFunctionBlock (n : Node) : bool :=
  bool_decide (type_ n = kFunctionBlock).

(** [Node() = default] with the member initialisers of the class. *)
Definition Node_new : Node :=
  {| id_ := -1; name_ := EmptyString; type_ := kNone; deleted_ := false;
     attrs_ := ∅; inlinks := []; outlinks := []; derived := Node_ |}.

(** The protected constructors of the subclasses. *)
Definition Value_new : Node :=
  SetType kValue (set_derived (Value_ None [] None) Node_new).

Definition Function_new : Node :=
  SetType kFunction (set_derived (Function_ EmptyString) Node_new).

Definition FunctionBlock_new : Node :=
  SetType kFunctionBlock (set_derived (FunctionBlock_ []) Node_new).

(** [repr()], virtual: [FunctionBlock] overrides it, [Value] and [Function]
    inherit it. *)
Definition repr (n : Node) : string :=
  match derived n with
  | FunctionBlock_ _ => "block-" +:+ to_string (id n)
  | _ => name n +:+ "(" +:+ to_string (id n) +:+ ")"
  end.

(** The members of the subclasses, reached through [As<Subclass>()]:
    [dynamic_cast] gives a null pointer for an object of another class, and
    dereferencing it is undefined; the embedding stops with [BadCast]. *)
Definition SetDataType (dt : DataType) (n : Node) : result Node :=
  match derived n with
  | Value_ _ dims dev => Ok (set_derived (Value_ (Some dt) dims dev) n)
  | _ => Err BadCast
  end.

Definition SetDims (dims : Dims) (n : Node) : result Node :=
  match derived n with
  | Value_ dt _ dev => Ok (set_derived (Value_ dt dims dev) n)
  | _ => Err BadCast
  end.

Definition SetDevice (dev : Device) (n : Node) : result Node :=
  match derived n with
  | Value_ dt dims _ => Ok (set_derived (Value_ dt dims (Some dev)) n)
  | _ => Err BadCast
  end.

Definition SetFuncType (s : string) (n : Node) : result Node :=
  match derived n with
  | Function_ _ => Ok (set_derived (Function_ s) n)
  | _ => Err BadCast
  end.

Definition func_type (n : Node) : result string :=
  match derived n with
  | Function_ s => Ok s
  | _ => Err BadCast
  end.

Definition set_subgraph (l : list NodePtr) (n : Node) : result Node :=
  match derived n with
  | FunctionBlock_ _ => Ok (set_derived (FunctionBlock_ l) n)
  | _ => Err BadCast
  end.

(** [dot_attrs()], virtual.  [Value] and [Function] override it and
    [node.h] only declares the two overrides, so they are parameters of the
    dispatch; [FunctionBlock] inherits the body of [Node]. *)
Section DotAttrs.
Variable Value_dot_attrs : Node -> list Dot_Attr.
Variable Function_dot_attrs : Node -> list Dot_Attr.

Definition Node_dot_attrs (n : Node) : list Dot_Attr :=
  [mkDot_Attr "style" "filled"].

Definition dot_attrs (n : Node) : list Dot_Attr :=
  match derived n with
  | Value_ _ _ _ => Value_dot_attrs n
  | Function_ _ => Function_dot_attrs n
  | Node_ | FunctionBlock_ _ => Node_dot_attrs n
  end.
End DotAttrs.

(** Whether the class of the object overrides [dot_attrs()]. *)
Definition overrides_dot_attrs (n : Node) : bool :=
  match derived n with
  | Value_ _ _ _ | Function_ _ => true
  | Node_ | FunctionBlock_ _ => false
  end.

(** What can stand on the right of an assignment to a whole [AnyAttr]: a
    default-constructed attribute, or one that was read or written at a
    type [T] and holds [v].  Copies of slots are such values too. *)
Inductive attr_rhs : Type :=
  | rhs_new
  | rhs_typed (T : scalar) (v : cpp T).

Definition rhs_value (r : attr_rhs) : AnyAttr :=
  match r with
  | rhs_new => AnyAttr_new
  | rhs_typed T v => {| any_data_ := any_of T v; type_index_ := typeid T |}
  end.

(** [attr(name);]: the call alone, which inserts the slot when the key is
    missing. *)
Definition attrs_touch (name : string) (m : gmap string AnyAttr)
  : gmap string AnyAttr :=
  (attrs_at name m).2.

(** [attr(name) = a;]: [attr] returns an [AnyAttr &] and [AnyAttr] has the
    implicit copy assignment, which overwrites [any_data_] and
    [type_index_] together. *)
Definition attrs_put (name : string) (r : attr_rhs) (m : gmap string AnyAttr)
  : gmap string AnyAttr :=
  <[name := rhs_value r]> (attrs_at name m).2.

(** The public operations of a node that can change it.  The readers
    [id()], [name()], [type()], [deleted()], [repr()], [dot_attrs()] and the
    three type checks change nothing and are left out; [pb_desc()],
    [pb_msg()], [attr(name)] and [attr(name).As<T>()] are readers that
    write [attrs_]. *)
Inductive node_op : Type :=
  | op_attr_As (name : string) (T : scalar)
  | op_attr_assign (name : string) (T : scalar) (v : cpp T)
  | op_SetPbDesc (pb : pointer)
  | op_pb_desc
  | op_SetPbMsg (s : string)
  | op_pb_msg
  | op_SetDeleted
  | op_SetName (s : string)
  | op_SetType (t : NodeType)
  | op_set_inlinks (l : list NodePtr)
  | op_set_outlinks (l : list NodePtr)
  | op_SetDataType (dt : DataType)
  | op_SetDims (dims : Dims)
  | op_SetDevice (dev : Device)
  | op_SetFuncType (s : string)
  | op_set_subgraph (l : list NodePtr)
  | op_attr (name : string)
  | op_attr_put (name : string) (r : attr_rhs).

Definition exec_node_op (o : node_op) (n : Node) : result Node :=
  match o with
  | op_attr_As name T => try r <- attr_As T name n in Ok r.2
  | op_attr_assign name T v => attr_assign T name v n
  | op_SetPbDesc pb => SetPbDesc pb n
  | op_pb_desc => try r <- pb_desc n in Ok r.2
  | op_SetPbMsg s => SetPbMsg s n
  | op_pb_msg => try r <- pb_msg n in Ok r.2
  | op_SetDeleted => Ok (SetDeleted n)
  | op_SetName s => Ok (SetName s n)
  | op_SetType t => Ok (SetType t n)
  | op_set_inlinks l => Ok (set_inlinks l n)
  | op_set_outlinks l => Ok (set_outlinks l n)
  | op_SetDataType dt => SetDataType dt n
  | op_SetDims dims => SetDims dims n
  | op_SetDevice dev => SetDevice dev n
  | op_SetFuncType s => SetFuncType s n
  | op_set_subgraph l => set_subgraph l n
  | op_attr name => Ok (set_attrs (attrs_touch name (attrs_ n)) n)
  | op_attr_put name r => Ok (set_attrs (attrs_put name r (attrs_ n)) n)
  end.

Definition is_SetType (o : node_op) : bool :=
  match o with op_SetType _ => true | _ => false end.

(** ** NodeMap *)

Record NodeMap : Type := mkNodeMap {
  nodes_ : list Node;
  map_ : gmap string NodePtr
}.

Definition NodeMap_new : NodeMap := {| nodes_ := []; map_ := ∅ |}.

Definition nodes (m : NodeMap) : list Node := nodes_ m.

Definition size (m : NodeMap) : nat := length (nodes_ m).

(** The variants a node can be created with. *)
Inductive Variant : Type :=
  | VFunction | VValue | VFunctionBlock.

Definition Variant_type (v : Variant) : NodeType :=
  match v with
  | VFunction => kFunction
  | VValue => kValue
  | VFunctionBlock => kFunctionBlock
  end.

Definition construct (v : Variant) : Node :=
  match v with
  | VFunction => Function_new
  | VValue => Value_new
  | VFunctionBlock => FunctionBlock_new
  end.

(** [NodeMap] is a friend of [Node] and can write the protected [id_]. *)
Definition set_id (i : Z) (n : Node) : Node :=
  {| id_ := i; name_ := name_ n; type_ := type_ n;
     deleted_ := deleted_ n; attrs_ := attrs_ n;
     inlinks := inlinks n; outlinks := outlinks n; derived := derived n |}.

(** Modelled from the spec: the body of [NodeMap::Create] is not among the
    sources ([node.h] only declares it).  The spec has it allocate the
    node, assign the next dense identity (identity = position), set the
    variant tag and the default-initialised fields of the variant, append
    the node to the owned sequence and return a reference to it; it never
    fails. *)
Definition Create (v : Variant) (m : NodeMap) : NodePtr * NodeMap :=
  (size m,
   {| nodes_ := nodes_ m ++ [set_id (Z.of_nat (size m)) (construct v)];
      map_ := map_ m |}).

(** Modelled from the spec: the body of [NodeMap::GetMutable] is not among
    the sources.  The spec has it fail with [OutOfRange] when the identity
    was not assigned before, the unassigned identity included, and return a
    reference to the node otherwise, whether the node is deleted or not. *)
Definition GetMutable (i : Z) (m : NodeMap) : result NodePtr :=
  if bool_decide (0 <= i < Z.of_nat (size m))
  then Ok (Z.to_nat i)
  else Err OutOfRange.

(** Modelled from the spec: the body of [NodeMap::Get] is not among the
    sources.  As [GetMutable], returning the node read-only. *)
Definition Get (i : Z) (m : NodeMap) : result Node :=
  try p <- GetMutable i m in
  match nodes_ m !! p with
  | Some n => Ok n
  | None => Err OutOfRange
  end.

(** Running a member function of the node behind a [Node *].  A
    pointer to no node of this map is left alone, and a call that throws
    leaves the map as it was. *)
Definition at_node (p : NodePtr) (f : Node -> result Node) (m : NodeMap)
  : result NodeMap :=
  match nodes_ m !! p with
  | Some n =>
      try n' <- f n in
      Ok {| nodes_ := <[p := n']> (nodes_ m); map_ := map_ m |}
  | None => Err OutOfRange
  end.

(** Modelled from the spec: the body of [NodeMap::Delete] is not among the
    sources.  The spec has it mark the node at the identity deleted and
    touch nothing else: no edge, no compaction.  What it does with an
    identity that was never assigned is not said; the lookup is taken to
    fail as in [GetMutable]. *)
Definition Delete (i : Z) (m : NodeMap) : result NodeMap :=
  try p <- GetMutable i m in
  at_node p (fun n => Ok (SetDeleted n)) m.

(** The public operations on a map and, through the pointers it hands out,
    on its nodes. *)
Inductive map_op : Type :=
  | op_Create (v : Variant)
  | op_Delete (i : Z)
  | op_node (p : NodePtr) (o : node_op).

Definition exec_op (o : map_op) (m : NodeMap) : NodeMap :=
  match o with
  | op_Create v => (Create v m).2
  | op_Delete i => match Delete i m with Ok m' => m' | Err _ => m end
  | op_node p o => match at_node p (exec_node_op o) m with
                   | Ok m' => m'
                   | Err _ => m
                   end
  end.

Definition run (ops : list map_op) (m : NodeMap) : NodeMap :=
  foldl (fun m o => exec_op o m) m ops.

Definition is_Create (o : map_op) : bool :=
  match o with op_Create _ => true | _ => false end.

(** Whether the operation is [SetType] called on the node behind [p]. *)
Definition retypes (p : NodePtr) (o : map_op) : bool :=
  match o with
  | op_node q o' => bool_decide (q = p) && is_SetType o'
  | _ => false
  end.

(** ** Notions the statements use *)

(** A slot locked to [T] that holds [v]. *)
Definition typed (T : scalar) (v : cpp T) : AnyAttr :=
  {| any_data_ := any_of T v; type_index_ := typeid T |}.

(** Whether the class of the object overrides [repr()]. *)
Definition overrides_repr (n : Node) : bool :=
  match derived n with
  | FunctionBlock_ _ => true
  | _ => false
  end.

(** A sequence of calls on one node; a call that throws leaves the node as
    it was and the next call is made. *)
Definition exec_node (o : node_op) (n : Node) : Node :=
  match exec_node_op o n with
  | Ok n' => n'
  | Err _ => n
  end.

Definition run_node (ops : list node_op) (n : Node) : Node :=
  foldl (fun n o => exec_node o n) n ops.

Definition is_SetPbDesc (o : node_op) : bool :=
  match o with op_SetPbDesc _ => true | _ => false end.

(** Whether the call reads or writes the slot [name] of [attrs_]. *)
Definition touches (name : string) (o : node_op) : bool :=
  match o with
  | op_attr_As name' _ | op_attr_assign name' _ _
  | op_attr name' | op_attr_put name' _ => bool_decide (name' = name)
  | op_SetPbDesc _ | op_pb_desc => bool_decide ("pb_desc"%string = name)
  | op_SetPbMsg _ | op_pb_msg => bool_decide ("pb_msg"%string = name)
  | _ => false
  end.

(** The number of [Create] calls in a sequence of operations. *)
Fixpoint creates (ops : list map_op) : nat :=
  match ops with
  | [] => 0%nat
  | o :: ops' => ((if is_Create o then 1 else 0) + creates ops')%nat
  end.

(** Identity is position: the node at position [p] has identity [p]. *)
Definition dense (m : NodeMap) : Prop :=
  forall (p : NodePtr) (n : Node), nodes_ m !! p = Some n -> id n = Z.of_nat p.

(** ** Further members of the classes *)

(** The class of a node object. *)
Inductive Class : Type :=
  | CNode | CValue | CFunction | CFunctionBlock.

Global Instance Class_eq_dec : EqDecision Class.
Proof. solve_decision. Defined.

Definition class_of (n : Node) : Class :=
  match derived n with
  | Node_ => CNode
  | Value_ _ _ _ => CValue
  | Function_ _ => CFunction
  | FunctionBlock_ _ => CFunctionBlock
  end.

(** [template <typename Subclass> Subclass &As()]:
    [dynamic_cast<Subclass *>(this)] is [this] when the class of the object
    is [Subclass] or derives from it, and every class derives from [Node];
    it is null otherwise, and dereferencing it stops with [BadCast]. *)
Definition Node_As (c : Class) (n : Node) : result Node :=
  if bool_decide (c = CNode \/ class_of n = c) then Ok n else Err BadCast.

(** The readers of [Value] and [FunctionBlock], reached through
    [As<Subclass>()] as the setters are. *)
Definition data_type (n : Node) : result (option DataType) :=
  match derived n with
  | Value_ dt _ _ => Ok dt
  | _ => Err BadCast
  end.

Definition dims (n : Node) : result Dims :=
  match derived n with
  | Value_ _ d _ => Ok d
  | _ => Err BadCast
  end.

Definition device (n : Node) : result (option Device) :=
  match derived n with
  | Value_ _ _ dev => Ok dev
  | _ => Err BadCast
  end.

Definition subgraph_of (n : Node) : result (list NodePtr) :=
  match derived n with
  | FunctionBlock_ l => Ok l
  | _ => Err BadCast
  end.

(** The type each constructor gives the objects of its class. *)
Definition class_type (c : Class) : NodeType :=
  match c with
  | CNode => kNone
  | CValue => kValue
  | CFunction => kFunction
  | CFunctionBlock => kFunctionBlock
  end.

(** The type of the node is the one the constructor of its class set. *)
Definition tag_matches (n : Node) : Prop := type n = class_type (class_of n).

(** A slot is well formed when it is unread, or locked to a type and
    holding a value of that type. *)
Definition wf_attr (a : AnyAttr) : Prop :=
  type_index_ a = typeid_AnyAttr \/ exists (T : scalar) (v : cpp T), a = typed T v.

Definition wf_attrs (m : gmap string AnyAttr) : Prop :=
  forall (name : string) (a : AnyAttr), m !! name = Some a -> wf_attr a.

(** What the caller of an access sees: the value read, or the error. *)
Definition value_of {A S : Type} (r : result (A * S)) : result A :=
  match r with
  | Ok (v, _) => Ok v
  | Err e => Err e
  end.

Definition is_SetDeleted (o : node_op) : bool :=
  match o with op_SetDeleted => true | _ => false end.

(** The argument of the last [SetType] of a sequence of calls, [t] when
    there is none; the same for [SetName]. *)
Fixpoint final_type (ops : list node_op) (t : NodeType) : NodeType :=
  match ops with
  | [] => t
  | op_SetType t' :: ops' => final_type ops' t'
  | _ :: ops' => final_type ops' t
  end.

Fixpoint final_name (ops : list node_op) (s : string) : string :=
  match ops with
  | [] => s
  | op_SetName s' :: ops' => final_name ops' s'
  | _ :: ops' => final_name ops' s
  end.

(** The character [c] does not occur in the string. *)
Fixpoint lacks (c : ascii) (s : string) : bool :=
  match s with
  | EmptyString => true
  | String.String c' s' => negb (Ascii.eqb c' c) && lacks c s'
  end.

(** Whether the call is a setter of a member of a subclass. *)
Definition writes_derived (o : node_op) : bool :=
  match o with
  | op_SetDataType _ | op_SetDims _ | op_SetDevice _
  | op_SetFuncType _ | op_set_subgraph _ => true
  | _ => false
  end.

(** The list last assigned to [inlinks] in a sequence of calls, [l] when
    there is no assignment; the same for [outlinks]. *)
Fixpoint final_inlinks (ops : list node_op) (l : list NodePtr) : list NodePtr :=
  match ops with
  | [] => l
  | op_set_inlinks l' :: ops' => final_inlinks ops' l'
  | _ :: ops' => final_inlinks ops' l
  end.

Fixpoint final_outlinks (ops : list node_op) (l : list NodePtr) : list NodePtr :=
  match ops with
  | [] => l
  | op_set_outlinks l' :: ops' => final_outlinks ops' l'
  | _ :: ops' => final_outlinks ops' l
  end.

(** Whether the call assigns a whole [AnyAttr] to the slot [name]. *)
Definition overwrites (name : string) (o : node_op) : bool :=
  match o with
  | op_attr_put name' _ => bool_decide (name' = name)
  | _ => false
  end.

(** Whether the call writes the slot [name], or accesses it at a type
    other than [T]. *)
Definition disturbs (T : scalar) (name : string) (o : node_op) : bool :=
  match o with
  | op_attr_As name' U =>
      bool_decide (name' = name) && negb (bool_decide (U = T))
  | op_attr_assign name' _ _ | op_attr_put name' _ => bool_decide (name' = name)
  | op_SetPbDesc _ => bool_decide ("pb_desc"%string = name)
  | op_SetPbMsg _ => bool_decide ("pb_msg"%string = name)
  | op_pb_desc =>
      bool_decide ("pb_desc"%string = name) && negb (bool_decide (TPointer = T))
  | op_pb_msg =>
      bool_decide ("pb_msg"%string = name) && negb (bool_decide (TString = T))
  | _ => false
  end.

(** The slot [name] is unread, or locked to [T] and holding [T()]: nothing
    was written to it and it was read at no other type. *)
Definition clear_slot (T : scalar) (name : string) (m : gmap string AnyAttr)
  : Prop :=
  slot_type name m = typeid_AnyAttr \/ m !! name = Some (typed T (T_init T)).

(** * Properties *)

(** ** AnyAttr: the type lock *)

Lemma boost_get_any_of (T : scalar) (v : cpp T) :
  boost_get T (any_of T v) = Some v.
Proof. destruct T; reflexivity. Qed.

Lemma boost_get_other (T U : scalar) (v : cpp T) :
  U <> T -> boost_get U (any_of T v) = None.
Proof.
  intros H. destruct T, U; first [reflexivity | exfalso; apply H; reflexivity].
Qed.

Lemma As_unlocked (T : scalar) (a : AnyAttr) :
  type_index_ a = typeid_AnyAttr -> As T a = Ok (T_init T, typed T (T_init T)).
Proof.
  intros Ha. unfold As. rewrite decide_True by exact Ha.
  cbn [bind any_data_]. rewrite boost_get_any_of. reflexivity.
Qed.

Lemma As_typed (T : scalar) (v : cpp T) : As T (typed T v) = Ok (v, typed T v).
Proof.
  unfold As, typed. cbn [type_index_].
  rewrite decide_False by discriminate.
  rewrite decide_True by reflexivity.
  cbn [bind any_data_]. rewrite boost_get_any_of. reflexivity.
Qed.

Lemma As_mismatch (T U : scalar) (a : AnyAttr) :
  type_index_ a = typeid T -> U <> T -> As U a = Err TypeMismatch.
Proof.
  intros Ha HU. unfold As. rewrite Ha.
  rewrite decide_False by discriminate.
  rewrite decide_False by congruence.
  reflexivity.
Qed.

Lemma store_typed (T : scalar) (v w : cpp T) : store T w (typed T v) = typed T w.
Proof. reflexivity. Qed.

(** [As] either throws and changes nothing, or leaves the slot locked to
    the type it was called at. *)
Lemma As_locks (T : scalar) (a a' : AnyAttr) (v : cpp T) :
  As T a = Ok (v, a') -> a' = typed T v.
Proof.
  unfold As. destruct (decide (type_index_ a = typeid_AnyAttr)) as [|Hn].
  - cbn [bind any_data_]. rewrite boost_get_any_of. intros [= <- <-]. reflexivity.
  - destruct (decide (type_index_ a = typeid T)) as [HT|]; [|discriminate].
    cbn [bind]. destruct a as [d ti]. cbn in *. subst ti.
    destruct (boost_get T d) as [w|] eqn:Hg; [|discriminate].
    intros [= -> <-]. unfold typed. f_equal.
    destruct T, d; cbn in *; try discriminate; injection Hg as ->; reflexivity.
Qed.

Lemma attrs_As_unlocked (T : scalar) (name : string) (m : gmap string AnyAttr) :
  slot_type name m = typeid_AnyAttr ->
  attrs_As T name m = Ok (T_init T, <[name := typed T (T_init T)]> m).
Proof.
  unfold slot_type, attrs_As, attrs_at.
  destruct (m !! name) as [a|] eqn:Hm; intros Ha.
  - rewrite (As_unlocked T a Ha). reflexivity.
  - rewrite (As_unlocked T AnyAttr_new eq_refl). cbn [bind fst snd].
    rewrite insert_insert_eq. reflexivity.
Qed.

Lemma attrs_As_typed (T : scalar) (v : cpp T) (name : string)
    (m : gmap string AnyAttr) :
  m !! name = Some (typed T v) -> attrs_As T name m = Ok (v, m).
Proof.
  intros Hm. unfold attrs_As, attrs_at. rewrite Hm, As_typed.
  cbn [bind fst snd]. rewrite (insert_id m name _ Hm). reflexivity.
Qed.

Lemma attrs_As_mismatch (T U : scalar) (name : string)
    (m : gmap string AnyAttr) :
  slot_type name m = typeid T -> U <> T ->
  attrs_As U name m = Err TypeMismatch.
Proof.
  unfold slot_type, attrs_As, attrs_at.
  destruct (m !! name) as [a|]; [|discriminate].
  intros Ha HU. rewrite (As_mismatch T U a Ha HU). reflexivity.
Qed.

Lemma attrs_assign_typed (T : scalar) (v w : cpp T) (name : string)
    (m : gmap string AnyAttr) :
  m !! name = Some (typed T v) ->
  attrs_assign T name w m = Ok (<[name := typed T w]> m).
Proof.
  intros Hm. unfold attrs_assign, attrs_at, As_assign. rewrite Hm, As_typed.
  reflexivity.
Qed.

Lemma attrs_assign_unlocked (T : scalar) (w : cpp T) (name : string)
    (m : gmap string AnyAttr) :
  slot_type name m = typeid_AnyAttr ->
  attrs_assign T name w m = Ok (<[name := typed T w]> m).
Proof.
  unfold slot_type, attrs_assign, attrs_at, As_assign.
  destruct (m !! name) as [a|] eqn:Hm; intros Ha.
  - rewrite (As_unlocked T a Ha). reflexivity.
  - rewrite (As_unlocked T AnyAttr_new eq_refl). cbn [bind fst snd].
    rewrite store_typed, insert_insert_eq. reflexivity.
Qed.

Lemma attrs_assign_mismatch (T U : scalar) (w : cpp U) (name : string)
    (m : gmap string AnyAttr) :
  slot_type name m = typeid T -> U <> T ->
  attrs_assign U name w m = Err TypeMismatch.
Proof.
  unfold slot_type, attrs_assign, attrs_at, As_assign.
  destruct (m !! name) as [a|]; [|discriminate].
  intros Ha HU. rewrite (As_mismatch T U a Ha HU). reflexivity.
Qed.

(** A successful access leaves the slot locked to the type of the access,
    holding the value that was read. *)
Lemma attrs_As_locks (T : scalar) (name : string) (v : cpp T)
    (m m' : gmap string AnyAttr) :
  attrs_As T name m = Ok (v, m') -> m' !! name = Some (typed T v).
Proof.
  unfold attrs_As. destruct (attrs_at name m) as [a m1].
  destruct (As T a) as [[w a']|e] eqn:HAs; [|discriminate].
  cbn [bind fst snd]. intros [= -> <-].
  rewrite lookup_insert_eq. f_equal. exact (As_locks T a a' v HAs).
Qed.

(** An access to one name leaves every other slot as it was. *)
Lemma attrs_As_other (T : scalar) (name other : string) (v : cpp T)
    (m m' : gmap string AnyAttr) :
  attrs_As T name m = Ok (v, m') -> other <> name -> m' !! other = m !! other.
Proof.
  unfold attrs_As, attrs_at. intros H Hne.
  destruct (m !! name) as [a|];
    (destruct (As T _) as [[w a']|e]; [|discriminate]);
    cbn [bind fst snd] in H; injection H as _ <-;
    rewrite ?lookup_insert_ne by congruence; reflexivity.
Qed.

(** C1. On any attribute table, the first access to a name at a type [T]
    (the slot does not exist, or exists and was never read) returns [T()]
    and locks the slot to [T]; from then on an access at any other type [U]
    throws the "fetch error type" enforce failure, and an access at [T]
    returns the stored value and changes nothing: it returns [T()] when
    nothing was written, and [v] after [v] was written through the
    reference, the lock staying in place. *)
Theorem attr_type_lock (m : gmap string AnyAttr) (name : string) (T : scalar) :
  slot_type name m = typeid_AnyAttr ->
  exists m1 : gmap string AnyAttr,
    attrs_As T name m = Ok (T_init T, m1)
    /\ slot_type name m1 = typeid T
    /\ (forall U : scalar, U <> T -> attrs_As U name m1 = Err TypeMismatch)
    /\ attrs_As T name m1 = Ok (T_init T, m1)
    /\ (forall v : cpp T, exists m2 : gmap string AnyAttr,
          attrs_assign T name v m1 = Ok m2
          /\ attrs_As T name m2 = Ok (v, m2)
          /\ slot_type name m2 = typeid T
          /\ (forall U : scalar, U <> T ->
                attrs_As U name m2 = Err TypeMismatch)).
Proof.
  intros Hm. exists (<[name := typed T (T_init T)]> m).
  assert (H1 : (<[name := typed T (T_init T)]> m) !! name
               = Some (typed T (T_init T))) by apply lookup_insert_eq.
  assert (Hs : forall (w : cpp T) (m' : gmap string AnyAttr),
               m' !! name = Some (typed T w) -> slot_type name m' = typeid T).
  { intros w m' Hw. unfold slot_type. rewrite Hw. reflexivity. }
  split; [exact (attrs_As_unlocked T name m Hm)|].
  split; [exact (Hs _ _ H1)|].
  split; [intros U HU; exact (attrs_As_mismatch T U name _ (Hs _ _ H1) HU)|].
  split; [exact (attrs_As_typed T _ name _ H1)|].
  intros v. exists (<[name := typed T v]> (<[name := typed T (T_init T)]> m)).
  assert (H2 : (<[name := typed T v]> (<[name := typed T (T_init T)]> m))
               !! name = Some (typed T v)) by apply lookup_insert_eq.
  split; [exact (attrs_assign_typed T _ v name _ H1)|].
  split; [exact (attrs_As_typed T v name _ H2)|].
  split; [exact (Hs _ _ H2)|].
  intros U HU. exact (attrs_As_mismatch T U name _ (Hs _ _ H2) HU).
Qed.

(** The spec's example of C1: [bool] then [int32_t] on the name "x" of an
    empty table. *)
Lemma attr_type_lock_witness :
  slot_type "x" (∅ : gmap string AnyAttr) = typeid_AnyAttr
  /\ exists m1 : gmap string AnyAttr,
      attrs_As TBool "x" ∅ = Ok (false, m1)
      /\ attrs_As TInt32 "x" m1 = Err TypeMismatch
      /\ attrs_As TBool "x" m1 = Ok (false, m1).
Proof.
  assert (Hx : slot_type "x" (∅ : gmap string AnyAttr) = typeid_AnyAttr)
    by (vm_compute; reflexivity).
  split; [exact Hx|].
  destruct (attr_type_lock ∅ "x" TBool Hx)
    as (m1 & H0 & _ & Hne & Hsame & _).
  exists m1. split; [exact H0|]. split; [|exact Hsame].
  apply Hne. discriminate.
Defined.

(** C7. On an empty attribute table the first access to a name returns the
    value-initialised value of the type asked for: [false], [+0.0f], [0],
    [0], the null pointer and the empty string. *)
Theorem attr_default (name : string) :
  (exists m, attrs_As TBool name ∅ = Ok (false, m))
  /\ (exists m, attrs_As TFloat name ∅ = Ok (0%N, m))
  /\ (exists m, attrs_As TInt32 name ∅ = Ok (0, m))
  /\ (exists m, attrs_As TInt64 name ∅ = Ok (0, m))
  /\ (exists m, attrs_As TPointer name ∅ = Ok (nullptr, m))
  /\ (exists m, attrs_As TString name ∅ = Ok (EmptyString, m)).
Proof.
  repeat split; eexists;
    (rewrite attrs_As_unlocked;
     [reflexivity | unfold slot_type; rewrite lookup_empty; reflexivity]).
Qed.

(** ** Node: type checks, tombstone, labels *)

(** C10. At most one of the three type checks of a node holds, and none
    holds for a node whose type is [kNone]. *)
Theorem type_checks_exclusive (n : Node) :
  IsFunction n && IsValue n = false
  /\ IsFunction n && IsFunctionBlock n = false
  /\ IsValue n && IsFunctionBlock n = false
  /\ (type n = kNone ->
      IsFunction n = false /\ IsValue n = false /\ IsFunctionBlock n = false).
Proof.
  unfold IsFunction, IsValue, IsFunctionBlock, type.
  destruct (type_ n); repeat split; try reflexivity; discriminate.
Qed.

Lemma type_checks_exclusive_witness :
  type Node_new = kNone
  /\ IsFunction Node_new = false
  /\ IsValue Node_new = false
  /\ IsFunctionBlock Node_new = false.
Proof.
  split; [reflexivity|].
  apply (type_checks_exclusive Node_new). reflexivity.
Defined.

(** Each type check holds exactly for its enumerator. *)
Lemma type_checks_spec (n : Node) :
  (IsFunction n = true <-> type n = kFunction)
  /\ (IsValue n = true <-> type n = kValue)
  /\ (IsFunctionBlock n = true <-> type n = kFunctionBlock).
Proof.
  unfold IsFunction, IsValue, IsFunctionBlock, type.
  rewrite !bool_decide_eq_true. tauto.
Qed.

Lemma SetDeleted_idem (n : Node) : SetDeleted (SetDeleted n) = SetDeleted n.
Proof. reflexivity. Qed.

Lemma SetDeleted_iter (k : nat) (n : Node) :
  Nat.iter (S k) SetDeleted n = SetDeleted n.
Proof.
  induction k as [|k IH]; [reflexivity|].
  change (Nat.iter (S (S k)) SetDeleted n)
    with (SetDeleted (Nat.iter (S k) SetDeleted n)).
  rewrite IH. apply SetDeleted_idem.
Qed.

(** C6. After one call of [SetDeleted()] or more, [deleted()] is true, a
    further call changes nothing, and the identity, the name, the type, the
    attributes, the input and output links and the members of the subclass
    are those the node had before. *)
Theorem SetDeleted_frame (k : nat) (n : Node) :
  let n' := Nat.iter (S k) SetDeleted n in
  deleted n' = true
  /\ SetDeleted n' = n'
  /\ id n' = id n
  /\ name n' = name n
  /\ type n' = type n
  /\ attrs_ n' = attrs_ n
  /\ inlinks n' = inlinks n
  /\ outlinks n' = outlinks n
  /\ derived n' = derived n.
Proof.
  cbv zeta. rewrite SetDeleted_iter. repeat split.
Qed.

Lemma to_string_inj (i j : Z) : to_string i = to_string j -> i = j.
Proof. unfold to_string. apply pretty_Z_inj. Qed.

(** C4. A node of class [FunctionBlock] with no name set is labelled
    "block-" followed by the decimal digits of its identity; a node of a
    class that inherits [repr()] from [Node] is labelled by its name
    followed by its identity in parentheses. *)
Theorem repr_label (n : Node) :
  (overrides_repr n = true -> name n = EmptyString ->
   repr n = "block-" +:+ to_string (id n))
  /\ (overrides_repr n = false ->
      repr n = name n +:+ "(" +:+ to_string (id n) +:+ ")").
Proof.
  unfold overrides_repr, repr.
  destruct (derived n); split; intros; first [reflexivity | discriminate].
Qed.

Lemma repr_label_witness :
  repr (set_id 7 FunctionBlock_new) = "block-7"%string
  /\ repr (SetName "conv" (set_id 3 Function_new)) = "conv(3)"%string.
Proof.
  split.
  - rewrite (proj1 (repr_label (set_id 7 FunctionBlock_new)));
      [vm_compute; reflexivity | reflexivity | reflexivity].
  - rewrite (proj2 (repr_label (SetName "conv" (set_id 3 Function_new))));
      [vm_compute; reflexivity | reflexivity].
Defined.

Lemma overrides_repr_FunctionBlock (n : Node) :
  overrides_repr n = true <-> exists sub, derived n = FunctionBlock_ sub.
Proof.
  unfold overrides_repr. destruct (derived n) as [|dt dims dev|s|sub]; split;
    try discriminate; try (intros [sub' Hsub]; discriminate Hsub).
  - intros _. exists sub. reflexivity.
  - intros _. reflexivity.
Qed.

(** The label of a block does not depend on its name, and two blocks share
    a label only when they share the identity. *)
Lemma repr_block_any_name (n : Node) :
  overrides_repr n = true -> repr n = "block-" +:+ to_string (id n).
Proof.
  unfold overrides_repr, repr. destruct (derived n); first [reflexivity | discriminate].
Qed.

Lemma repr_block_inj (n1 n2 : Node) :
  overrides_repr n1 = true -> overrides_repr n2 = true ->
  repr n1 = repr n2 -> id n1 = id n2.
Proof.
  intros H1 H2. rewrite (repr_block_any_name n1 H1), (repr_block_any_name n2 H2).
  intros H. apply to_string_inj. exact (String.app_inj "block-" _ _ H).
Qed.

(** C8. For a node of a class that does not override [dot_attrs()], the
    attributes returned are the single pair ("style", "filled"), whatever
    the overrides of [Value] and [Function] return. *)
Theorem dot_attrs_default (Value_dot_attrs Function_dot_attrs : Node -> list Dot_Attr)
    (n : Node) :
  overrides_dot_attrs n = false ->
  dot_attrs Value_dot_attrs Function_dot_attrs n = [mkDot_Attr "style" "filled"]
  /\ In (mkDot_Attr "style" "filled")
        (dot_attrs Value_dot_attrs Function_dot_attrs n).
Proof.
  unfold overrides_dot_attrs, dot_attrs, Node_dot_attrs.
  destruct (derived n); intros H; try discriminate; split;
    first [reflexivity | left; reflexivity].
Qed.

Lemma dot_attrs_default_witness :
  overrides_dot_attrs FunctionBlock_new = false
  /\ In (mkDot_Attr "style" "filled")
        (dot_attrs (fun _ => []) (fun _ => []) FunctionBlock_new).
Proof.
  split; [reflexivity|].
  apply (dot_attrs_default (fun _ => []) (fun _ => []) FunctionBlock_new).
  reflexivity.
Defined.

(** ** Node: the attributes behind [pb_msg] and [pb_desc] *)

Lemma set_attrs_same (n : Node) : set_attrs (attrs_ n) n = n.
Proof. destruct n; reflexivity. Qed.

Lemma attrs_assign_locks (T : scalar) (name : string) (v : cpp T)
    (m m' : gmap string AnyAttr) :
  attrs_assign T name v m = Ok m' -> m' !! name = Some (typed T v).
Proof.
  unfold attrs_assign, As_assign. destruct (attrs_at name m) as [a m1].
  destruct (As T a) as [[w a']|e] eqn:HAs; [|discriminate].
  cbn [bind fst snd]. intros [= <-].
  rewrite lookup_insert_eq, (As_locks T a a' w HAs). reflexivity.
Qed.

Lemma attrs_assign_other (T : scalar) (name other : string) (v : cpp T)
    (m m' : gmap string AnyAttr) :
  attrs_assign T name v m = Ok m' -> other <> name -> m' !! other = m !! other.
Proof.
  unfold attrs_assign, attrs_at, As_assign. intros H Hne.
  destruct (m !! name) as [a|];
    (destruct (As T _) as [[w a']|e]; [|discriminate]);
    cbn [bind fst snd] in H; injection H as <-;
    rewrite ?lookup_insert_ne by congruence; reflexivity.
Qed.

Lemma attr_As_typed (T : scalar) (v : cpp T) (name : string) (n : Node) :
  attrs_ n !! name = Some (typed T v) -> attr_As T name n = Ok (v, n).
Proof.
  intros Hm. unfold attr_As. rewrite (attrs_As_typed T v name _ Hm).
  cbn [bind fst snd]. rewrite set_attrs_same. reflexivity.
Qed.

Lemma attr_As_mismatch (T U : scalar) (name : string) (n : Node) :
  slot_type name (attrs_ n) = typeid T -> U <> T ->
  attr_As U name n = Err TypeMismatch.
Proof.
  intros Hs HU. unfold attr_As. rewrite (attrs_As_mismatch T U name _ Hs HU).
  reflexivity.
Qed.

Lemma attr_assign_roundtrip (T : scalar) (name : string) (v : cpp T)
    (n n' : Node) :
  attr_assign T name v n = Ok n' -> attr_As T name n' = Ok (v, n').
Proof.
  unfold attr_assign.
  destruct (attrs_assign T name v (attrs_ n)) as [m|e] eqn:Hm; [|discriminate].
  cbn [bind]. intros [= <-]. apply attr_As_typed.
  exact (attrs_assign_locks T name v _ m Hm).
Qed.

Lemma attr_assign_unlocked (T : scalar) (name : string) (v : cpp T) (n : Node) :
  slot_type name (attrs_ n) = typeid_AnyAttr ->
  attr_assign T name v n = Ok (set_attrs (<[name := typed T v]> (attrs_ n)) n).
Proof.
  intros Hs. unfold attr_assign. rewrite (attrs_assign_unlocked T v name _ Hs).
  reflexivity.
Qed.

(** C5. When [SetPbMsg(s)] returns, [pb_msg()] returns [s] and leaves the
    node as it is; when [SetPbDesc(p)] returns, [pb_desc()] returns [p] and
    leaves the node as it is.  Both setters return on a node whose slot was
    never read. *)
Theorem pb_roundtrip (n : Node) :
  (forall (s : string) (n' : Node),
     SetPbMsg s n = Ok n' -> pb_msg n' = Ok (s, n'))
  /\ (forall (p : pointer) (n' : Node),
        SetPbDesc p n = Ok n' -> pb_desc n' = Ok (p, n'))
  /\ (slot_type "pb_msg" (attrs_ n) = typeid_AnyAttr ->
      forall s : string, is_Ok (SetPbMsg s n) = true)
  /\ (slot_type "pb_desc" (attrs_ n) = typeid_AnyAttr ->
      forall p : pointer, is_Ok (SetPbDesc p n) = true).
Proof.
  unfold SetPbMsg, pb_msg, SetPbDesc, pb_desc. repeat split.
  - intros s n'. apply attr_assign_roundtrip.
  - intros p n'. apply attr_assign_roundtrip.
  - intros Hs s. rewrite (attr_assign_unlocked TString _ s n Hs). reflexivity.
  - intros Hs p. rewrite (attr_assign_unlocked TPointer _ p n Hs). reflexivity.
Qed.

Lemma pb_roundtrip_witness :
  let n1 := set_attrs {[ "pb_msg"%string := typed TString "mul" ]} Node_new in
  let n2 := set_attrs (<[ "pb_desc"%string := typed TPointer 4096%N ]> (attrs_ n1))
                      n1 in
  SetPbMsg "mul" Node_new = Ok n1
  /\ pb_msg n1 = Ok ("mul"%string, n1)
  /\ SetPbDesc 4096%N n1 = Ok n2
  /\ pb_desc n2 = Ok (4096%N, n2).
Proof.
  intros n1 n2.
  assert (H1 : SetPbMsg "mul" Node_new = Ok n1) by (vm_compute; reflexivity).
  assert (H2 : SetPbDesc 4096%N n1 = Ok n2) by (vm_compute; reflexivity).
  split; [exact H1|].
  split; [exact (proj1 (pb_roundtrip Node_new) _ n1 H1)|].
  split; [exact H2|].
  exact (proj1 (proj2 (pb_roundtrip n1)) _ n2 H2).
Defined.

(** ** The attribute table: the call alone and the whole assignment *)

Lemma attrs_touch_other (name other : string) (m : gmap string AnyAttr) :
  other <> name -> attrs_touch name m !! other = m !! other.
Proof.
  intros Hne. unfold attrs_touch, attrs_at.
  destruct (m !! name); cbn [snd]; [reflexivity|].
  apply lookup_insert_ne. congruence.
Qed.

Lemma attrs_touch_slot_type (name other : string) (m : gmap string AnyAttr) :
  slot_type other (attrs_touch name m) = slot_type other m.
Proof.
  destruct (decide (other = name)) as [->|Hne].
  - unfold attrs_touch, attrs_at, slot_type.
    destruct (m !! name) eqn:Hm; cbn [snd]; [rewrite Hm; reflexivity|].
    rewrite lookup_insert_eq. reflexivity.
  - unfold slot_type. rewrite (attrs_touch_other name other m Hne). reflexivity.
Qed.

Lemma attrs_touch_is_Some (name other : string) (m : gmap string AnyAttr) :
  is_Some (m !! other) -> is_Some (attrs_touch name m !! other).
Proof.
  intros Hs. unfold attrs_touch, attrs_at.
  destruct (m !! name) eqn:Hm; cbn [snd]; [exact Hs|].
  destruct (decide (other = name)) as [->|Hne].
  - rewrite lookup_insert_eq. eauto.
  - rewrite lookup_insert_ne by congruence. exact Hs.
Qed.

Lemma attrs_put_insert (name : string) (r : attr_rhs) (m : gmap string AnyAttr) :
  attrs_put name r m = <[name := rhs_value r]> m.
Proof.
  unfold attrs_put, attrs_at. destruct (m !! name); cbn [snd]; [reflexivity|].
  apply insert_insert_eq.
Qed.

Lemma attrs_put_other (name other : string) (r : attr_rhs)
    (m : gmap string AnyAttr) :
  other <> name -> attrs_put name r m !! other = m !! other.
Proof.
  intros Hne. rewrite attrs_put_insert. apply lookup_insert_ne. congruence.
Qed.

Lemma attrs_put_lookup (name : string) (r : attr_rhs) (m : gmap string AnyAttr) :
  attrs_put name r m !! name = Some (rhs_value r).
Proof. rewrite attrs_put_insert. apply lookup_insert_eq. Qed.

(** ** Node: what a sequence of calls does to one slot *)

Ltac subclass_setter n :=
  destruct (derived n); cbn; reflexivity.

(** A call that does not touch the slot [name] leaves it as it was. *)
Lemma exec_node_untouched (name : string) (o : node_op) (n : Node) :
  touches name o = false ->
  attrs_ (exec_node o n) !! name = attrs_ n !! name.
Proof.
  assert (HA : forall T name' r, name' <> name ->
               attr_As T name' n = Ok r -> attrs_ r.2 !! name = attrs_ n !! name).
  { intros T name' [v n'] Hne. unfold attr_As.
    destruct (attrs_As T name' (attrs_ n)) as [[w m]|e] eqn:Hm; [|discriminate].
    cbn [bind fst snd]. intros [= _ <-]. cbn [attrs_ set_attrs].
    apply (attrs_As_other T name' name w _ m Hm). congruence. }
  assert (HS : forall T name' v n', name' <> name ->
               attr_assign T name' v n = Ok n' ->
               attrs_ n' !! name = attrs_ n !! name).
  { intros T name' v n' Hne. unfold attr_assign.
    destruct (attrs_assign T name' v (attrs_ n)) as [m|e] eqn:Hm; [|discriminate].
    cbn [bind]. intros [= <-]. cbn [attrs_ set_attrs].
    apply (attrs_assign_other T name' name v _ m Hm). congruence. }
  unfold exec_node.
  destruct o as [name' T|name' T v|pb| |s| | |s|t|l|l|dt|dims|dev|s|l|name'|name' r];
    cbn [touches exec_node_op]; intros Ht;
    try (apply bool_decide_eq_false_1 in Ht);
    try reflexivity;
    try (unfold SetDataType, SetDims, SetDevice, SetFuncType, set_subgraph;
         subclass_setter n).
  - destruct (attr_As T name' n) as [r|e] eqn:Hr; [|reflexivity].
    exact (HA T name' r Ht Hr).
  - destruct (attr_assign T name' v n) as [n'|e] eqn:Hr; [|reflexivity].
    exact (HS T name' v n' Ht Hr).
  - unfold SetPbDesc.
    destruct (attr_assign TPointer "pb_desc" pb n) as [n'|e] eqn:Hr; [|reflexivity].
    exact (HS TPointer _ pb n' Ht Hr).
  - unfold pb_desc.
    destruct (attr_As TPointer "pb_desc" n) as [r|e] eqn:Hr; [|reflexivity].
    exact (HA TPointer _ r Ht Hr).
  - unfold SetPbMsg.
    destruct (attr_assign TString "pb_msg" s n) as [n'|e] eqn:Hr; [|reflexivity].
    exact (HS TString _ s n' Ht Hr).
  - unfold pb_msg.
    destruct (attr_As TString "pb_msg" n) as [r|e] eqn:Hr; [|reflexivity].
    exact (HA TString _ r Ht Hr).
  - cbn [attrs_ set_attrs]. apply attrs_touch_other. congruence.
  - cbn [attrs_ set_attrs]. apply attrs_put_other. congruence.
Qed.

Lemma run_node_untouched (name : string) (ops : list node_op) (n : Node) :
  forallb (fun o => negb (touches name o)) ops = true ->
  attrs_ (run_node ops n) !! name = attrs_ n !! name.
Proof.
  revert n. induction ops as [|o ops IH]; intros n; [reflexivity|].
  cbn [forallb]. intros [Ho Hops]%andb_true_iff.
  apply negb_true_iff in Ho.
  change (run_node (o :: ops) n) with (run_node ops (exec_node o n)).
  rewrite (IH _ Hops). exact (exec_node_untouched name o n Ho).
Qed.

Lemma slot_type_lookup (name : string) (m m' : gmap string AnyAttr) :
  m' !! name = m !! name -> slot_type name m' = slot_type name m.
Proof. unfold slot_type. intros ->. reflexivity. Qed.

Lemma slot_type_typed (T : scalar) (v : cpp T) (name : string)
    (m : gmap string AnyAttr) :
  m !! name = Some (typed T v) -> slot_type name m = typeid T.
Proof. unfold slot_type. intros ->. reflexivity. Qed.

(** Once a slot is locked to [T], no access to the table unlocks it or
    locks it to another type. *)
Lemma attrs_As_keeps_lock (T U : scalar) (name name' : string) (v : cpp U)
    (m m' : gmap string AnyAttr) :
  slot_type name m = typeid T ->
  attrs_As U name' m = Ok (v, m') -> slot_type name m' = typeid T.
Proof.
  intros Hs HAs. destruct (decide (name' = name)) as [->|Hne].
  - destruct (decide (U = T)) as [->|HU].
    + exact (slot_type_typed T v name m' (attrs_As_locks T name v m m' HAs)).
    + rewrite (attrs_As_mismatch T U name m Hs HU) in HAs. discriminate.
  - rewrite <- Hs. apply slot_type_lookup.
    apply (attrs_As_other U name' name v m m' HAs). congruence.
Qed.

Lemma attrs_assign_keeps_lock (T U : scalar) (name name' : string) (v : cpp U)
    (m m' : gmap string AnyAttr) :
  slot_type name m = typeid T ->
  attrs_assign U name' v m = Ok m' -> slot_type name m' = typeid T.
Proof.
  intros Hs HAs. destruct (decide (name' = name)) as [->|Hne].
  - destruct (decide (U = T)) as [->|HU].
    + exact (slot_type_typed T v name m' (attrs_assign_locks T name v m m' HAs)).
    + rewrite (attrs_assign_mismatch T U v name m Hs HU) in HAs. discriminate.
  - rewrite <- Hs. apply slot_type_lookup.
    apply (attrs_assign_other U name' name v m m' HAs). congruence.
Qed.

Lemma attr_As_keeps_lock (T U : scalar) (name name' : string) (n : Node)
    (r : cpp U * Node) :
  slot_type name (attrs_ n) = typeid T ->
  attr_As U name' n = Ok r -> slot_type name (attrs_ r.2) = typeid T.
Proof.
  intros Hs. unfold attr_As.
  destruct (attrs_As U name' (attrs_ n)) as [[w m]|e] eqn:Hm; [|discriminate].
  cbn [bind fst snd]. intros [= <-]. cbn [snd attrs_ set_attrs].
  exact (attrs_As_keeps_lock T U name name' w _ m Hs Hm).
Qed.

Lemma attr_assign_keeps_lock (T U : scalar) (name name' : string) (v : cpp U)
    (n n' : Node) :
  slot_type name (attrs_ n) = typeid T ->
  attr_assign U name' v n = Ok n' -> slot_type name (attrs_ n') = typeid T.
Proof.
  intros Hs. unfold attr_assign.
  destruct (attrs_assign U name' v (attrs_ n)) as [m|e] eqn:Hm; [|discriminate].
  cbn [bind]. intros [= <-]. cbn [attrs_ set_attrs].
  exact (attrs_assign_keeps_lock T U name name' v _ m Hs Hm).
Qed.

Lemma exec_node_keeps_lock (T : scalar) (name : string) (o : node_op) (n : Node) :
  overwrites name o = false ->
  slot_type name (attrs_ n) = typeid T ->
  slot_type name (attrs_ (exec_node o n)) = typeid T.
Proof.
  intros Ho Hs. unfold exec_node.
  destruct o as [name' U|name' U v|pb| |s| | |s|t|l|l|dt|dims|dev|s|l|name'|name' r];
    cbn [exec_node_op]; try exact Hs;
    try (unfold SetDataType, SetDims, SetDevice, SetFuncType, set_subgraph;
         destruct (derived n); exact Hs).
  - destruct (attr_As U name' n) as [r|e] eqn:Hr; [|exact Hs].
    exact (attr_As_keeps_lock T U name name' n r Hs Hr).
  - destruct (attr_assign U name' v n) as [n'|e] eqn:Hr; [|exact Hs].
    exact (attr_assign_keeps_lock T U name name' v n n' Hs Hr).
  - unfold SetPbDesc.
    destruct (attr_assign TPointer "pb_desc" pb n) as [n'|e] eqn:Hr; [|exact Hs].
    exact (attr_assign_keeps_lock T TPointer name _ pb n n' Hs Hr).
  - unfold pb_desc.
    destruct (attr_As TPointer "pb_desc" n) as [r|e] eqn:Hr; [|exact Hs].
    exact (attr_As_keeps_lock T TPointer name _ n r Hs Hr).
  - unfold SetPbMsg.
    destruct (attr_assign TString "pb_msg" s n) as [n'|e] eqn:Hr; [|exact Hs].
    exact (attr_assign_keeps_lock T TString name _ s n n' Hs Hr).
  - unfold pb_msg.
    destruct (attr_As TString "pb_msg" n) as [r|e] eqn:Hr; [|exact Hs].
    exact (attr_As_keeps_lock T TString name _ n r Hs Hr).
  - cbn [attrs_ set_attrs]. rewrite attrs_touch_slot_type. exact Hs.
  - cbn [attrs_ set_attrs overwrites] in *. apply bool_decide_eq_false_1 in Ho.
    rewrite <- Hs. apply slot_type_lookup. apply attrs_put_other. congruence.
Qed.

Lemma run_node_keeps_lock (T : scalar) (name : string) (ops : list node_op)
    (n : Node) :
  forallb (fun o => negb (overwrites name o)) ops = true ->
  slot_type name (attrs_ n) = typeid T ->
  slot_type name (attrs_ (run_node ops n)) = typeid T.
Proof.
  revert n. induction ops as [|o ops IH]; intros n Hops Hs; [exact Hs|].
  cbn [forallb] in Hops. apply andb_true_iff in Hops as [Ho Hops].
  apply negb_true_iff in Ho.
  change (run_node (o :: ops) n) with (run_node ops (exec_node o n)).
  apply (IH _ Hops). exact (exec_node_keeps_lock T name o n Ho Hs).
Qed.

(** The whole assignment is the call that unlocks or retypes a slot. *)
Lemma exec_node_put_slot_type (name : string) (r : attr_rhs) (n : Node) :
  slot_type name (attrs_ (exec_node (op_attr_put name r) n))
  = type_index_ (rhs_value r).
Proof.
  unfold exec_node, slot_type. cbn [exec_node_op attrs_ set_attrs].
  rewrite attrs_put_lookup. reflexivity.
Qed.

(** ** Node: the first read of a slot nothing was written to *)

Lemma clear_slot_lookup (T : scalar) (name : string)
    (m m' : gmap string AnyAttr) :
  m' !! name = m !! name -> clear_slot T name m -> clear_slot T name m'.
Proof.
  intros H [Hc|Hc]; [left | right].
  - rewrite <- Hc. exact (slot_type_lookup name m m' H).
  - rewrite H. exact Hc.
Qed.

Lemma attrs_As_clear (T : scalar) (name : string) (m : gmap string AnyAttr) :
  clear_slot T name m ->
  attrs_As T name m = Ok (T_init T, <[name := typed T (T_init T)]> m).
Proof.
  intros [Hc|Hc].
  - exact (attrs_As_unlocked T name m Hc).
  - rewrite (attrs_As_typed T _ name m Hc), (insert_id m name _ Hc).
    reflexivity.
Qed.

Lemma attr_As_clear (T : scalar) (name : string) (n : Node) :
  clear_slot T name (attrs_ n) ->
  attr_As T name n
  = Ok (T_init T, set_attrs (<[name := typed T (T_init T)]> (attrs_ n)) n).
Proof.
  intros Hc. unfold attr_As. rewrite (attrs_As_clear T name _ Hc). reflexivity.
Qed.

(** A call that neither writes the slot nor accesses it at another type
    leaves it unread or holding [T()]. *)
Lemma exec_node_clear (T : scalar) (name : string) (o : node_op) (n : Node) :
  disturbs T name o = false ->
  clear_slot T name (attrs_ n) -> clear_slot T name (attrs_ (exec_node o n)).
Proof.
  intros Hd Hc. destruct (touches name o) eqn:Ht.
  2:{ exact (clear_slot_lookup T name _ _ (exec_node_untouched name o n Ht) Hc). }
  assert (HA : clear_slot T name
                 (attrs_ (match attr_As T name n with
                          | Ok r => r.2
                          | Err _ => n
                          end))).
  { rewrite (attr_As_clear T name n Hc). cbn [snd attrs_ set_attrs].
    right. apply lookup_insert_eq. }
  unfold exec_node.
  destruct o as [name' U|name' U v|pb| |s| | |s|t|l|l|dt|dims|dev|s|l|name'|name' r];
    cbn [touches disturbs] in Ht, Hd; try discriminate Ht;
    try (rewrite Ht in Hd; discriminate Hd);
    try (rewrite Ht in Hd; cbn [andb] in Hd; apply negb_false_iff in Hd;
         apply bool_decide_eq_true_1 in Hd);
    apply bool_decide_eq_true_1 in Ht; subst; cbn [exec_node_op].
  - destruct (attr_As T name n) as [r|e]; exact HA.
  - unfold pb_desc. destruct (attr_As TPointer "pb_desc" n) as [r|e]; exact HA.
  - unfold pb_msg. destruct (attr_As TString "pb_msg" n) as [r|e]; exact HA.
  - cbn [attrs_ set_attrs]. destruct Hc as [Hc|Hc]; [left | right].
    + rewrite attrs_touch_slot_type. exact Hc.
    + unfold attrs_touch, attrs_at. rewrite Hc. exact Hc.
Qed.

Lemma run_node_clear (T : scalar) (name : string) (ops : list node_op)
    (n : Node) :
  forallb (fun o => negb (disturbs T name o)) ops = true ->
  clear_slot T name (attrs_ n) -> clear_slot T name (attrs_ (run_node ops n)).
Proof.
  revert n. induction ops as [|o ops IH]; intros n Hops Hc; [exact Hc|].
  cbn [forallb] in Hops. apply andb_true_iff in Hops as [Ho Hops].
  apply negb_true_iff in Ho.
  change (run_node (o :: ops) n) with (run_node ops (exec_node o n)).
  apply (IH _ Hops). exact (exec_node_clear T name o n Ho Hc).
Qed.

(** The first read of a slot that nothing was written to returns [T()] and
    locks the slot; the lock holds until the slot is assigned as a whole. *)
Lemma first_read_locks (T : scalar) (name : string) (ops : list node_op)
    (n0 : Node) :
  clear_slot T name (attrs_ n0) ->
  forallb (fun o => negb (disturbs T name o)) ops = true ->
  exists n' : Node,
    attr_As T name (run_node ops n0) = Ok (T_init T, n')
    /\ attr_As T name n' = Ok (T_init T, n')
    /\ slot_type name (attrs_ n') = typeid T
    /\ (forall (ops' : list node_op) (U : scalar), U <> T ->
          forallb (fun o => negb (overwrites name o)) ops' = true ->
          attr_As U name (run_node ops' n') = Err TypeMismatch).
Proof.
  intros H0 Hops. pose proof (run_node_clear T name ops n0 Hops H0) as Hn.
  set (n := run_node ops n0) in *.
  set (m := <[name := typed T (T_init T)]> (attrs_ n)).
  exists (set_attrs m n).
  assert (Hm : attrs_ (set_attrs m n) !! name = Some (typed T (T_init T)))
    by apply lookup_insert_eq.
  assert (Hl : slot_type name (attrs_ (set_attrs m n)) = typeid T)
    by exact (slot_type_typed T _ name _ Hm).
  split; [exact (attr_As_clear T name n Hn)|].
  split; [exact (attr_As_typed T _ name _ Hm)|].
  split; [exact Hl|].
  intros ops' U HU Hops'. apply (attr_As_mismatch T U); [|exact HU].
  exact (run_node_keeps_lock T name ops' _ Hops' Hl).
Qed.

(** C9, as stated, fails: on a new node, reading the slot "pb_desc" as an
    [int32_t] through the public [attr] locks it to [int32_t]; [SetPbDesc]
    was never called and [pb_desc()] throws.  Nor is the lock that
    [pb_desc()] sets permanent: after [attr("pb_desc") = AnyAttr()] the
    slot is unread again and a read as [int32_t] returns [0]. *)
Lemma pb_desc_throws_without_SetPbDesc :
  let ops := [op_attr_As "pb_desc" TInt32] in
  forallb (fun o => negb (is_SetPbDesc o)) ops = true
  /\ pb_desc (run_node ops Node_new) = Err TypeMismatch
  /\ (forall n' : Node, pb_desc (run_node ops Node_new) <> Ok (nullptr, n'))
  /\ value_of (attr_As TInt32 "pb_desc"
        (run_node [op_pb_desc; op_attr_put "pb_desc" rhs_new] Node_new))
     = Ok 0.
Proof.
  assert (H : pb_desc (run_node [op_attr_As "pb_desc" TInt32] Node_new)
              = Err TypeMismatch) by (vm_compute; reflexivity).
  cbv zeta. rewrite H.
  split; [reflexivity|]. split; [reflexivity|]. split; [discriminate|].
  vm_compute. reflexivity.
Qed.

(** C9, amended.  On a node whose slot "pb_desc" is unread or holds the
    null pointer, and after any calls [ops] that neither write the slot nor
    access it at another type ([pb_desc()] itself and reads as [void *]
    are among them), [pb_desc()] returns the null pointer and locks the
    slot to [void *]: an access to the slot at any other type throws the
    "fetch error type" enforce failure, then and after any further calls
    that do not assign a whole attribute to the slot. *)
Theorem pb_desc_unset_returns_null (ops : list node_op) (n0 : Node) :
  clear_slot TPointer "pb_desc" (attrs_ n0) ->
  forallb (fun o => negb (disturbs TPointer "pb_desc" o)) ops = true ->
  exists n' : Node,
    pb_desc (run_node ops n0) = Ok (nullptr, n')
    /\ slot_type "pb_desc" (attrs_ n') = typeid TPointer
    /\ (forall U : scalar, U <> TPointer ->
          attr_As U "pb_desc" n' = Err TypeMismatch)
    /\ (forall (ops' : list node_op) (U : scalar), U <> TPointer ->
          forallb (fun o => negb (overwrites "pb_desc" o)) ops' = true ->
          attr_As U "pb_desc" (run_node ops' n') = Err TypeMismatch).
Proof.
  intros H0 Hops.
  destruct (first_read_locks TPointer "pb_desc" ops n0 H0 Hops)
    as (n' & Hr & _ & Hl & Hlater).
  exists n'. split; [exact Hr|]. split; [exact Hl|].
  split; [|exact Hlater].
  intros U HU. exact (Hlater [] U HU eq_refl).
Qed.

Lemma pb_desc_unset_returns_null_witness :
  exists n' : Node,
    pb_desc (run_node [op_SetName "fc"; op_pb_desc; op_SetPbMsg "w";
                       op_attr_As "pb_desc" TPointer; op_attr "pb_desc"]
               Function_new)
      = Ok (nullptr, n')
    /\ attr_As TInt64 "pb_desc"
         (run_node [op_pb_msg; op_attr_put "pb_msg" rhs_new] n')
       = Err TypeMismatch.
Proof.
  assert (H0 : clear_slot TPointer "pb_desc" (attrs_ Function_new))
    by (left; vm_compute; reflexivity).
  assert (H1 : forallb (fun o => negb (disturbs TPointer "pb_desc" o))
                 [op_SetName "fc"; op_pb_desc; op_SetPbMsg "w";
                  op_attr_As "pb_desc" TPointer; op_attr "pb_desc"] = true)
    by (vm_compute; reflexivity).
  destruct (pb_desc_unset_returns_null _ Function_new H0 H1)
    as (n' & Hr & _ & _ & Hlater).
  exists n'. split; [exact Hr|].
  apply Hlater; [discriminate | vm_compute; reflexivity].
Defined.

(** ** NodeMap: identities and types under the public operations *)

Lemma attr_As_frame (T : scalar) (name : string) (n : Node) (r : cpp T * Node) :
  attr_As T name n = Ok r -> id r.2 = id n /\ type r.2 = type n.
Proof.
  unfold attr_As. destruct (attrs_As T name (attrs_ n)) as [[w m]|e]; [|discriminate].
  cbn [bind fst snd]. intros [= <-]. split; reflexivity.
Qed.

Lemma attr_assign_frame (T : scalar) (name : string) (v : cpp T) (n n' : Node) :
  attr_assign T name v n = Ok n' -> id n' = id n /\ type n' = type n.
Proof.
  unfold attr_assign.
  destruct (attrs_assign T name v (attrs_ n)) as [m|e]; [|discriminate].
  cbn [bind]. intros [= <-]. split; reflexivity.
Qed.

(** No public member function of a node writes [id_], and [SetType] is the
    only one that writes [type_]. *)
Lemma exec_node_op_frame (o : node_op) (n n' : Node) :
  exec_node_op o n = Ok n' ->
  id n' = id n /\ (is_SetType o = false -> type n' = type n).
Proof.
  destruct o as [name' U|name' U v|pb| |s| | |s|t|l|l|dt|dims|dev|s|l|name'|name' r];
    cbn [exec_node_op is_SetType];
    try (intros [= <-]; split; [reflexivity | first [reflexivity | discriminate]]);
    try (unfold SetDataType, SetDims, SetDevice, SetFuncType, set_subgraph;
         destruct (derived n); intros [= <-]; split; reflexivity).
  - destruct (attr_As U name' n) as [r|e] eqn:Hr; [|discriminate].
    cbn [bind]. intros [= <-]. destruct (attr_As_frame U name' n r Hr). tauto.
  - intros Hr. destruct (attr_assign_frame U name' v n n' Hr). tauto.
  - intros Hr. destruct (attr_assign_frame TPointer _ pb n n' Hr). tauto.
  - unfold pb_desc. destruct (attr_As TPointer "pb_desc" n) as [r|e] eqn:Hr;
      [|discriminate].
    cbn [bind]. intros [= <-]. destruct (attr_As_frame TPointer _ n r Hr). tauto.
  - intros Hr. destruct (attr_assign_frame TString _ s n n' Hr). tauto.
  - unfold pb_msg. destruct (attr_As TString "pb_msg" n) as [r|e] eqn:Hr;
      [|discriminate].
    cbn [bind]. intros [= <-]. destruct (attr_As_frame TString _ n r Hr). tauto.
Qed.

(** A call on the node behind [q] replaces that node and no other. *)
Lemma at_node_lookup (q p : NodePtr) (f : Node -> result Node)
    (m m' : NodeMap) (n : Node) :
  at_node q f m = Ok m' -> nodes_ m !! p = Some n ->
  size m' = size m
  /\ exists n' : Node, nodes_ m' !! p = Some n'
       /\ ((q = p /\ f n = Ok n') \/ (q <> p /\ n' = n)).
Proof.
  unfold at_node, size. intros Hat Hp.
  destruct (nodes_ m !! q) as [nq|] eqn:Hq; [|discriminate].
  destruct (f nq) as [nq'|e] eqn:Hf; [|discriminate].
  cbn [bind] in Hat. injection Hat as <-. cbn [nodes_].
  split; [apply length_insert|].
  destruct (decide (q = p)) as [->|Hne].
  - exists nq'. split.
    + apply list_lookup_insert_eq. exact (lookup_lt_Some _ _ _ Hq).
    + left. split; [reflexivity|]. congruence.
  - exists n. split.
    + rewrite list_lookup_insert_ne by exact Hne. exact Hp.
    + right. split; [exact Hne | reflexivity].
Qed.

Lemma at_node_size (q : NodePtr) (f : Node -> result Node) (m m' : NodeMap) :
  at_node q f m = Ok m' -> size m' = size m.
Proof.
  unfold at_node, size. destruct (nodes_ m !! q) as [nq|]; [|discriminate].
  destruct (f nq) as [nq'|e]; [|discriminate].
  cbn [bind]. intros [= <-]. apply length_insert.
Qed.

Lemma exec_op_size (o : map_op) (m : NodeMap) :
  size (exec_op o m) = (size m + (if is_Create o then 1 else 0))%nat.
Proof.
  destruct o as [v|i|q o']; cbn [exec_op is_Create].
  - unfold Create, size. cbn [snd nodes_]. rewrite length_app. reflexivity.
  - unfold Delete. destruct (GetMutable i m) as [q|e]; cbn [bind]; [|lia].
    destruct (at_node q _ m) as [m'|e] eqn:Hat; [|lia].
    rewrite (at_node_size _ _ _ _ Hat). lia.
  - destruct (at_node q _ m) as [m'|e] eqn:Hat; [|lia].
    rewrite (at_node_size _ _ _ _ Hat). lia.
Qed.

(** One operation keeps every node of the map in its place, with its
    identity, and with its type unless the operation is [SetType] on it. *)
Lemma exec_op_frame (o : map_op) (m : NodeMap) (p : NodePtr) (n : Node) :
  nodes_ m !! p = Some n ->
  exists n' : Node,
    nodes_ (exec_op o m) !! p = Some n'
    /\ id n' = id n
    /\ (retypes p o = false -> type n' = type n).
Proof.
  intros Hp. destruct o as [v|i|q o']; cbn [exec_op retypes].
  - exists n. unfold Create. cbn [snd nodes_].
    rewrite (lookup_app_l_Some _ _ _ _ Hp). repeat split.
  - unfold Delete. destruct (GetMutable i m) as [q|e]; cbn [bind];
      [|exists n; repeat split; exact Hp].
    destruct (at_node q _ m) as [m'|e] eqn:Hat; [|exists n; repeat split; exact Hp].
    destruct (at_node_lookup q p _ m m' n Hat Hp) as (_ & n' & Hn' & Hcase).
    exists n'. split; [exact Hn'|].
    destruct Hcase as [[_ [= <-]]|[_ ->]]; repeat split.
  - destruct (at_node q _ m) as [m'|e] eqn:Hat; [|exists n; repeat split; exact Hp].
    destruct (at_node_lookup q p _ m m' n Hat Hp) as (_ & n' & Hn' & Hcase).
    exists n'. split; [exact Hn'|].
    destruct Hcase as [[-> Hf]|[Hne ->]].
    + destruct (exec_node_op_frame o' n n' Hf) as [Hid Hty].
      split; [exact Hid|]. rewrite bool_decide_eq_true_2 by reflexivity.
      exact Hty.
    + repeat split.
Qed.

Lemma run_frame (ops : list map_op) (m : NodeMap) (p : NodePtr) (n : Node) :
  nodes_ m !! p = Some n ->
  exists n' : Node,
    nodes_ (run ops m) !! p = Some n'
    /\ id n' = id n
    /\ (forallb (fun o => negb (retypes p o)) ops = true -> type n' = type n).
Proof.
  revert m n. induction ops as [|o ops IH]; intros m n Hp.
  - exists n. repeat split. exact Hp.
  - change (run (o :: ops) m) with (run ops (exec_op o m)).
    destruct (exec_op_frame o m p n Hp) as (n1 & Hp1 & Hid1 & Hty1).
    destruct (IH _ n1 Hp1) as (n' & Hp' & Hid' & Hty').
    exists n'. split; [exact Hp'|]. split; [congruence|].
    cbn [forallb]. intros [Ho Hops]%andb_true_iff.
    apply negb_true_iff in Ho. rewrite (Hty' Hops). exact (Hty1 Ho).
Qed.

Lemma Create_lookup (v : Variant) (m : NodeMap) :
  nodes_ (Create v m).2 !! (Create v m).1
  = Some (set_id (Z.of_nat (size m)) (construct v)).
Proof.
  unfold Create, size. cbn [fst snd nodes_].
  rewrite lookup_app_r by lia. rewrite Nat.sub_diag. reflexivity.
Qed.

Lemma construct_type (v : Variant) : type (construct v) = Variant_type v.
Proof. destruct v; reflexivity. Qed.

(** C2, as stated, fails for the type: [SetType] is a public member
    function, and calling it on a node that was created as a function makes
    [type()] return [kValue]. *)
Lemma SetType_reassigns_type :
  let p := (Create VFunction NodeMap_new).1 in
  let m1 := (Create VFunction NodeMap_new).2 in
  let m2 := run [op_node p (op_SetType kValue)] m1 in
  type <$> (nodes m1 !! p) = Some kFunction
  /\ type <$> (nodes m2 !! p) = Some kValue
  /\ type <$> (nodes m2 !! p) <> type <$> (nodes m1 !! p)
  /\ id <$> (nodes m2 !! p) = id <$> (nodes m1 !! p).
Proof. vm_compute. repeat split. discriminate. Qed.

(** C2, amended.  The node that [Create] returns has the next position as
    its identity and the requested variant as its type.  After any sequence
    of public operations on the map and on its nodes the node is still at
    its position and [id()] returns the same identity; [type()] returns the
    same type when [SetType] was not called on that node. *)
Theorem id_write_once_type_until_SetType (v : Variant) (m : NodeMap)
    (ops : list map_op) :
  let p := (Create v m).1 in
  exists n0 n' : Node,
    nodes (Create v m).2 !! p = Some n0
    /\ id n0 = Z.of_nat (size m)
    /\ type n0 = Variant_type v
    /\ nodes (run ops (Create v m).2) !! p = Some n'
    /\ id n' = id n0
    /\ (forallb (fun o => negb (retypes p o)) ops = true -> type n' = type n0).
Proof.
  cbv zeta. unfold nodes.
  destruct (run_frame ops _ _ _ (Create_lookup v m)) as (n' & Hp' & Hid & Hty).
  exists (set_id (Z.of_nat (size m)) (construct v)), n'.
  split; [apply Create_lookup|].
  split; [reflexivity|].
  split; [exact (construct_type v)|].
  split; [exact Hp'|].
  split; [exact Hid | exact Hty].
Qed.

Lemma id_write_once_type_until_SetType_witness :
  let ops := [op_node 0%nat (op_SetName "relu"); op_Create VValue;
              op_node 0%nat (op_set_outlinks [1%nat]); op_Delete 0;
              op_node 1%nat (op_SetType kNone)] in
  forallb (fun o => negb (retypes 0%nat o)) ops = true
  /\ exists n' : Node,
       nodes (run ops (Create VFunction NodeMap_new).2) !! 0%nat = Some n'
       /\ id n' = 0
       /\ type n' = kFunction.
Proof.
  intros ops.
  assert (Hops : forallb (fun o => negb (retypes 0%nat o)) ops = true)
    by (vm_compute; reflexivity).
  split; [exact Hops|].
  destruct (id_write_once_type_until_SetType VFunction NodeMap_new ops)
    as (n0 & n' & H0 & Hid0 & Hty0 & Hp' & Hid & Hty).
  exists n'. split; [exact Hp'|].
  split; [rewrite Hid; exact Hid0|].
  rewrite (Hty Hops). exact Hty0.
Defined.

(** ** NodeMap: identity is position *)

Lemma run_size (ops : list map_op) (m : NodeMap) :
  size (run ops m) = (size m + creates ops)%nat.
Proof.
  revert m. induction ops as [|o ops IH]; intros m.
  - cbn. lia.
  - change (run (o :: ops) m) with (run ops (exec_op o m)).
    rewrite IH, exec_op_size. cbn [creates]. lia.
Qed.

Lemma exec_op_dense (o : map_op) (m : NodeMap) :
  dense m -> dense (exec_op o m).
Proof.
  intros Hd p n' Hp'.
  destruct (nodes_ m !! p) as [n|] eqn:Hp.
  - destruct (exec_op_frame o m p n Hp) as (n'' & Hp'' & Hid & _).
    rewrite Hp' in Hp''. injection Hp'' as <-.
    rewrite Hid. exact (Hd p n Hp).
  - pose proof (lookup_lt_Some _ _ _ Hp') as Hlt.
    apply lookup_ge_None_1 in Hp.
    fold (size (exec_op o m)) in Hlt. fold (size m) in Hp.
    rewrite exec_op_size in Hlt.
    destruct o as [v|i|q o']; cbn [is_Create] in Hlt; try lia.
    assert (p = size m) as -> by lia.
    cbn [exec_op] in Hp'.
    pose proof (Create_lookup v m) as Hc. cbn [fst Create] in Hc.
    rewrite Hc in Hp'. injection Hp' as <-. reflexivity.
Qed.

Lemma run_dense (ops : list map_op) (m : NodeMap) :
  dense m -> dense (run ops m).
Proof.
  revert m. induction ops as [|o ops IH]; intros m Hd; [exact Hd|].
  change (run (o :: ops) m) with (run ops (exec_op o m)).
  apply IH, exec_op_dense, Hd.
Qed.

Lemma NodeMap_new_dense : dense NodeMap_new.
Proof. intros p n Hp. discriminate Hp. Qed.

Lemma GetMutable_assigned (i : Z) (m : NodeMap) :
  0 <= i < Z.of_nat (size m) -> GetMutable i m = Ok (Z.to_nat i).
Proof.
  intros Hi. unfold GetMutable. rewrite bool_decide_eq_true_2 by exact Hi.
  reflexivity.
Qed.

Lemma GetMutable_unassigned (i : Z) (m : NodeMap) :
  ~ (0 <= i < Z.of_nat (size m)) -> GetMutable i m = Err OutOfRange.
Proof.
  intros Hi. unfold GetMutable. rewrite bool_decide_eq_false_2 by exact Hi.
  reflexivity.
Qed.

Lemma Get_unassigned (i : Z) (m : NodeMap) :
  ~ (0 <= i < Z.of_nat (size m)) -> Get i m = Err OutOfRange.
Proof.
  intros Hi. unfold Get. rewrite (GetMutable_unassigned i m Hi). reflexivity.
Qed.

Lemma Get_assigned (i : Z) (m : NodeMap) :
  0 <= i < Z.of_nat (size m) ->
  exists n : Node, nodes m !! Z.to_nat i = Some n /\ Get i m = Ok n.
Proof.
  intros Hi. unfold Get. rewrite (GetMutable_assigned i m Hi). cbn [bind].
  destruct (lookup_lt_is_Some_2 (nodes_ m) (Z.to_nat i)) as [n Hn].
  { unfold size in Hi. lia. }
  exists n. unfold nodes. rewrite Hn. split; reflexivity.
Qed.

(** C3. In a map that started empty and went through any sequence of
    public operations of which [N] are calls of [Create], [size()] is [N];
    for every [i] with [0 <= i < N], [Get(i)] returns the node at position
    [i], whose identity is [i], and [GetMutable(i)] returns the pointer to
    it; for every [i >= N], and for the identity of a node that no map has
    registered, both fail with [OutOfRange]. *)
Theorem identity_density (ops : list map_op) :
  let m := run ops NodeMap_new in
  let N := creates ops in
  size m = N
  /\ (forall i : Z, 0 <= i < Z.of_nat N ->
        exists n : Node,
          Get i m = Ok n /\ id n = i
          /\ GetMutable i m = Ok (Z.to_nat i)
          /\ nodes m !! Z.to_nat i = Some n)
  /\ (forall i : Z, Z.of_nat N <= i ->
        Get i m = Err OutOfRange /\ GetMutable i m = Err OutOfRange)
  /\ Get (id Node_new) m = Err OutOfRange
  /\ GetMutable (id Node_new) m = Err OutOfRange.
Proof.
  cbv zeta.
  assert (Hsz : size (run ops NodeMap_new) = creates ops).
  { rewrite run_size. reflexivity. }
  split; [exact Hsz|]. rewrite <- Hsz.
  split.
  { intros i Hi. destruct (Get_assigned i _ Hi) as (n & Hn & HG).
    exists n. split; [exact HG|].
    split.
    - rewrite (run_dense ops _ NodeMap_new_dense _ n Hn). lia.
    - split; [exact (GetMutable_assigned i _ Hi) | exact Hn]. }
  split.
  { intros i Hi. split;
      [apply Get_unassigned | apply GetMutable_unassigned]; lia. }
  split; [apply Get_unassigned | apply GetMutable_unassigned];
    cbn [id id_ Node_new]; lia.
Qed.

Lemma identity_density_witness :
  let ops := [op_Create VFunction; op_Create VValue; op_Delete 0;
              op_node 1%nat (op_SetDims [2; 3]); op_Create VFunctionBlock] in
  let m := run ops NodeMap_new in
  size m = 3%nat
  /\ (exists n : Node, Get 2 m = Ok n /\ id n = 2)
  /\ Get 3 m = Err OutOfRange
  /\ GetMutable (-1) m = Err OutOfRange.
Proof.
  intros ops m.
  destruct (identity_density ops) as (Hsz & Hin & Hout & _ & Hs).
  split; [exact Hsz|].
  split.
  - destruct (Hin 2) as (n & HG & Hid & _); [vm_compute; split; congruence|].
    exists n. split; [exact HG | exact Hid].
  - split; [|exact Hs].
    apply (Hout 3). vm_compute. congruence.
Defined.

(** [Delete] on an assigned identity marks the node and nothing else: the
    node is still returned by [Get], with [deleted()] true, and the links
    of the other nodes that point to it are as they were. *)
Lemma Delete_tombstone (i : Z) (m : NodeMap) :
  0 <= i < Z.of_nat (size m) ->
  exists (n : Node) (m' : NodeMap),
    Get i m = Ok n /\ Delete i m = Ok m'
    /\ Get i m' = Ok (SetDeleted n)
    /\ size m' = size m
    /\ (forall (p : NodePtr) (q : Node), p <> Z.to_nat i ->
          nodes m !! p = Some q -> nodes m' !! p = Some q).
Proof.
  intros Hi. destruct (Get_assigned i m Hi) as (n & Hn & HG).
  unfold nodes in *.
  set (m' := {| nodes_ := <[Z.to_nat i := SetDeleted n]> (nodes_ m);
                map_ := map_ m |}).
  assert (HD : Delete i m = Ok m').
  { unfold Delete, at_node. rewrite (GetMutable_assigned i m Hi). cbn [bind].
    rewrite Hn. reflexivity. }
  assert (Hsz : size m' = size m) by apply length_insert.
  exists n, m'. split; [exact HG|]. split; [exact HD|].
  split.
  { unfold Get. rewrite GetMutable_assigned by (rewrite Hsz; exact Hi).
    cbn [bind nodes_ m'].
    rewrite list_lookup_insert_eq by exact (lookup_lt_Some _ _ _ Hn).
    reflexivity. }
  split; [exact Hsz|].
  intros p q Hne Hq. cbn [nodes_ m'].
  rewrite list_lookup_insert_ne by congruence. exact Hq.
Qed.

(** ** AnyAttr: when an access throws *)

Lemma typed_wf (T : scalar) (v : cpp T) : wf_attr (typed T v).
Proof. right. exists T, v. reflexivity. Qed.

Lemma attrs_As_wf (T : scalar) (name : string) (v : cpp T)
    (m m' : gmap string AnyAttr) :
  wf_attrs m -> attrs_As T name m = Ok (v, m') -> wf_attrs m'.
Proof.
  intros Hwf HAs other a Ha. destruct (decide (other = name)) as [->|Hne].
  - rewrite (attrs_As_locks T name v m m' HAs) in Ha. injection Ha as <-.
    apply typed_wf.
  - rewrite (attrs_As_other T name other v m m' HAs Hne) in Ha.
    exact (Hwf other a Ha).
Qed.

Lemma attrs_assign_wf (T : scalar) (name : string) (v : cpp T)
    (m m' : gmap string AnyAttr) :
  wf_attrs m -> attrs_assign T name v m = Ok m' -> wf_attrs m'.
Proof.
  intros Hwf HAs other a Ha. destruct (decide (other = name)) as [->|Hne].
  - rewrite (attrs_assign_locks T name v m m' HAs) in Ha. injection Ha as <-.
    apply typed_wf.
  - rewrite (attrs_assign_other T name other v m m' HAs Hne) in Ha.
    exact (Hwf other a Ha).
Qed.

Lemma attr_As_wf (T : scalar) (name : string) (n : Node) (r : cpp T * Node) :
  wf_attrs (attrs_ n) -> attr_As T name n = Ok r -> wf_attrs (attrs_ r.2).
Proof.
  intros Hwf. unfold attr_As.
  destruct (attrs_As T name (attrs_ n)) as [[w m]|e] eqn:Hm; [|discriminate].
  cbn [bind fst snd]. intros [= <-]. cbn [snd attrs_ set_attrs].
  exact (attrs_As_wf T name w _ m Hwf Hm).
Qed.

Lemma attr_assign_wf (T : scalar) (name : string) (v : cpp T) (n n' : Node) :
  wf_attrs (attrs_ n) -> attr_assign T name v n = Ok n' -> wf_attrs (attrs_ n').
Proof.
  intros Hwf. unfold attr_assign.
  destruct (attrs_assign T name v (attrs_ n)) as [m|e] eqn:Hm; [|discriminate].
  cbn [bind]. intros [= <-]. cbn [attrs_ set_attrs].
  exact (attrs_assign_wf T name v _ m Hwf Hm).
Qed.

Lemma rhs_value_wf (r : attr_rhs) : wf_attr (rhs_value r).
Proof.
  destruct r as [|T v]; [left; reflexivity | exact (typed_wf T v)].
Qed.

Lemma attrs_touch_wf (name : string) (m : gmap string AnyAttr) :
  wf_attrs m -> wf_attrs (attrs_touch name m).
Proof.
  intros Hwf other a Ha. destruct (decide (other = name)) as [->|Hne].
  - unfold attrs_touch, attrs_at in Ha.
    destruct (m !! name) as [a0|] eqn:Hm; cbn [snd] in Ha.
    + exact (Hwf name a Ha).
    + rewrite lookup_insert_eq in Ha. injection Ha as <-. left. reflexivity.
  - rewrite (attrs_touch_other name other m Hne) in Ha. exact (Hwf other a Ha).
Qed.

Lemma attrs_put_wf (name : string) (r : attr_rhs) (m : gmap string AnyAttr) :
  wf_attrs m -> wf_attrs (attrs_put name r m).
Proof.
  intros Hwf other a Ha. destruct (decide (other = name)) as [->|Hne].
  - rewrite attrs_put_lookup in Ha. injection Ha as <-. apply rhs_value_wf.
  - rewrite (attrs_put_other name other r m Hne) in Ha. exact (Hwf other a Ha).
Qed.

Lemma exec_node_wf (o : node_op) (n : Node) :
  wf_attrs (attrs_ n) -> wf_attrs (attrs_ (exec_node o n)).
Proof.
  intros Hwf. unfold exec_node.
  destruct o as [name' U|name' U v|pb| |s| | |s|t|l|l|dt|dims|dev|s|l|name'|name' r];
    cbn [exec_node_op]; try exact Hwf;
    try (unfold SetDataType, SetDims, SetDevice, SetFuncType, set_subgraph;
         destruct (derived n); exact Hwf).
  - destruct (attr_As U name' n) as [r|e] eqn:Hr; [|exact Hwf].
    exact (attr_As_wf U name' n r Hwf Hr).
  - destruct (attr_assign U name' v n) as [n'|e] eqn:Hr; [|exact Hwf].
    exact (attr_assign_wf U name' v n n' Hwf Hr).
  - unfold SetPbDesc.
    destruct (attr_assign TPointer "pb_desc" pb n) as [n'|e] eqn:Hr; [|exact Hwf].
    exact (attr_assign_wf TPointer _ pb n n' Hwf Hr).
  - unfold pb_desc.
    destruct (attr_As TPointer "pb_desc" n) as [r|e] eqn:Hr; [|exact Hwf].
    exact (attr_As_wf TPointer _ n r Hwf Hr).
  - unfold SetPbMsg.
    destruct (attr_assign TString "pb_msg" s n) as [n'|e] eqn:Hr; [|exact Hwf].
    exact (attr_assign_wf TString _ s n n' Hwf Hr).
  - unfold pb_msg.
    destruct (attr_As TString "pb_msg" n) as [r|e] eqn:Hr; [|exact Hwf].
    exact (attr_As_wf TString _ n r Hwf Hr).
  - cbn [attrs_ set_attrs]. exact (attrs_touch_wf name' _ Hwf).
  - cbn [attrs_ set_attrs]. exact (attrs_put_wf name' r _ Hwf).
Qed.

Lemma run_node_wf (ops : list node_op) (n : Node) :
  wf_attrs (attrs_ n) -> wf_attrs (attrs_ (run_node ops n)).
Proof.
  revert n. induction ops as [|o ops IH]; intros n Hwf; [exact Hwf|].
  change (run_node (o :: ops) n) with (run_node ops (exec_node o n)).
  apply IH, exec_node_wf, Hwf.
Qed.

Lemma wf_attrs_empty : wf_attrs ∅.
Proof. intros name a Ha. rewrite lookup_empty in Ha. discriminate. Qed.

(** On a well-formed table an access returns or fails the enforce;
    [boost::get] finds the type it asks for. *)
Lemma attrs_As_wf_cases (T : scalar) (name : string) (m : gmap string AnyAttr) :
  wf_attrs m ->
  (slot_type name m = typeid_AnyAttr
   /\ attrs_As T name m = Ok (T_init T, <[name := typed T (T_init T)]> m))
  \/ (exists v : cpp T, m !! name = Some (typed T v)
      /\ attrs_As T name m = Ok (v, m))
  \/ (exists U : scalar, U <> T /\ slot_type name m = typeid U
      /\ attrs_As T name m = Err TypeMismatch).
Proof.
  intros Hwf. destruct (slot_type name m) as [|U] eqn:Hs.
  - left. split; [reflexivity|]. exact (attrs_As_unlocked T name m Hs).
  - right. unfold slot_type in Hs.
    destruct (m !! name) as [a|] eqn:Hm; [|discriminate].
    destruct (Hwf name a Hm) as [Hu|(U' & v & ->)]; [congruence|].
    cbn in Hs. injection Hs as ->.
    destruct (decide (U = T)) as [->|HU].
    + left. exists v. split; [reflexivity|].
      exact (attrs_As_typed T v name m Hm).
    + right. exists U. split; [exact HU|]. split; [reflexivity|].
      apply (attrs_As_mismatch U T name m); [|congruence].
      unfold slot_type. rewrite Hm. reflexivity.
Qed.

Lemma attrs_assign_Err (T : scalar) (name : string) (v : cpp T)
    (m : gmap string AnyAttr) (e : error) :
  attrs_assign T name v m = Err e -> attrs_As T name m = Err e.
Proof.
  unfold attrs_assign, attrs_As, As_assign.
  destruct (attrs_at name m) as [a m1].
  destruct (As T a) as [[w a']|e']; [discriminate|]. cbn [bind]. congruence.
Qed.

Lemma attr_As_Err (T : scalar) (name : string) (n : Node) (e : error) :
  attr_As T name n = Err e -> attrs_As T name (attrs_ n) = Err e.
Proof.
  unfold attr_As. destruct (attrs_As T name (attrs_ n)) as [[w m]|e'];
    [discriminate|]. cbn [bind]. congruence.
Qed.

Lemma attr_assign_Err (T : scalar) (name : string) (v : cpp T) (n : Node)
    (e : error) :
  attr_assign T name v n = Err e -> attrs_As T name (attrs_ n) = Err e.
Proof.
  unfold attr_assign.
  destruct (attrs_assign T name v (attrs_ n)) as [m|e'] eqn:Hm; [discriminate|].
  cbn [bind]. intros [= <-]. exact (attrs_assign_Err T name v _ e' Hm).
Qed.

Lemma attrs_As_wf_Err (T : scalar) (name : string) (m : gmap string AnyAttr)
    (e : error) :
  wf_attrs m -> attrs_As T name m = Err e -> e = TypeMismatch.
Proof.
  intros Hwf He.
  destruct (attrs_As_wf_cases T name m Hwf)
    as [[_ H]|[(v & _ & H)|(U & _ & _ & H)]]; congruence.
Qed.

(** X1. On a node whose attribute table is well formed, as the table of a
    node that a constructor returns is, and after any sequence of public
    calls, no public call fails in [boost::get]: the enforce in [As] catches
    every access at the wrong type first. *)
Theorem boost_get_never_throws (ops : list node_op) (n0 : Node) (o : node_op) :
  wf_attrs (attrs_ n0) ->
  exec_node_op o (run_node ops n0) <> Err BadGet.
Proof.
  intros Hwf0. pose proof (run_node_wf ops n0 Hwf0) as Hwf.
  set (n := run_node ops n0) in *. intros He.
  assert (HA : forall T name, attr_As T name n <> Err BadGet).
  { intros T name H. apply attr_As_Err in H.
    pose proof (attrs_As_wf_Err T name _ _ Hwf H). discriminate. }
  assert (HS : forall T name v, attr_assign T name v n <> Err BadGet).
  { intros T name v H. apply attr_assign_Err in H.
    pose proof (attrs_As_wf_Err T name _ _ Hwf H). discriminate. }
  destruct o as [name' U|name' U v|pb| |s| | |s|t|l|l|dt|dims|dev|s|l|name'|name' r];
    cbn [exec_node_op] in He; try discriminate;
    try (unfold SetDataType, SetDims, SetDevice, SetFuncType, set_subgraph in He;
         destruct (derived n); discriminate).
  - destruct (attr_As U name' n) as [r|e] eqn:Hr; [discriminate|].
    cbn [bind] in He. injection He as ->. exact (HA U name' Hr).
  - exact (HS U name' v He).
  - exact (HS TPointer _ pb He).
  - unfold pb_desc in He.
    destruct (attr_As TPointer "pb_desc" n) as [r|e] eqn:Hr; [discriminate|].
    cbn [bind] in He. injection He as ->. exact (HA TPointer _ Hr).
  - exact (HS TString _ s He).
  - unfold pb_msg in He.
    destruct (attr_As TString "pb_msg" n) as [r|e] eqn:Hr; [discriminate|].
    cbn [bind] in He. injection He as ->. exact (HA TString _ Hr).
Qed.

Lemma boost_get_never_throws_witness :
  wf_attrs (attrs_ Value_new)
  /\ exec_node_op (op_attr_As "axis" TFloat)
       (run_node [op_attr_assign "axis" TInt32 1; op_SetPbMsg "w"] Value_new)
     <> Err BadGet.
Proof.
  assert (Hwf : wf_attrs (attrs_ Value_new)) by exact wf_attrs_empty.
  split; [exact Hwf|].
  exact (boost_get_never_throws _ Value_new _ Hwf).
Defined.

(** X2. On a well-formed table the access [attr(name).As<T>()] returns
    exactly when the slot is unread or locked to [T], and when it does not
    return it fails the "fetch error type" enforce. *)
Theorem attr_access_succeeds_iff (T : scalar) (name : string)
    (m : gmap string AnyAttr) :
  wf_attrs m ->
  (is_Ok (attrs_As T name m) = true
   <-> slot_type name m = typeid_AnyAttr \/ slot_type name m = typeid T)
  /\ (is_Ok (attrs_As T name m) = false <-> attrs_As T name m = Err TypeMismatch).
Proof.
  intros Hwf.
  destruct (attrs_As_wf_cases T name m Hwf)
    as [[Hs H]|[(v & Hm & H)|(U & HU & Hs & H)]]; rewrite H; cbn [is_Ok].
  - split; [split; [intros _; left; exact Hs | reflexivity]|].
    split; discriminate.
  - split; [|split; discriminate].
    split; [|reflexivity]. intros _. right.
    exact (slot_type_typed T v name m Hm).
  - split; [|split; reflexivity].
    split; [discriminate|]. rewrite Hs. intros [Hx|Hx]; [discriminate|].
    injection Hx as ->. contradiction.
Qed.

Lemma attr_access_succeeds_iff_witness :
  let m : gmap string AnyAttr := {[ "axis"%string := typed TInt32 1 ]} in
  wf_attrs m
  /\ is_Ok (attrs_As TInt32 "axis" m) = true
  /\ attrs_As TInt64 "axis" m = Err TypeMismatch.
Proof.
  intros m.
  assert (Hwf : wf_attrs m).
  { intros name a Ha. apply lookup_singleton_Some in Ha as [_ <-].
    apply typed_wf. }
  split; [exact Hwf|].
  split.
  - apply (proj1 (attr_access_succeeds_iff TInt32 "axis" m Hwf)).
    right. vm_compute. reflexivity.
  - apply (proj2 (attr_access_succeeds_iff TInt64 "axis" m Hwf)).
    vm_compute. reflexivity.
Defined.

(** X3. An access throws only on a slot that was there before the call and
    was already locked: on a missing key [operator[]] inserts a slot and
    the access returns, so a throw never leaves a new slot behind. *)
Theorem attr_access_throws_only_on_locked (T : scalar) (name : string)
    (m : gmap string AnyAttr) (e : error) :
  attrs_As T name m = Err e \/ (exists v : cpp T, attrs_assign T name v m = Err e) ->
  exists a : AnyAttr, m !! name = Some a /\ type_index_ a <> typeid_AnyAttr.
Proof.
  intros H.
  assert (He : attrs_As T name m = Err e).
  { destruct H as [H|[v H]]; [exact H | exact (attrs_assign_Err T name v m e H)]. }
  destruct (slot_type name m) as [|U] eqn:Hs.
  - rewrite (attrs_As_unlocked T name m Hs) in He. discriminate.
  - unfold slot_type in Hs. destruct (m !! name) as [a|]; [|discriminate].
    exists a. split; [reflexivity|]. congruence.
Qed.

Lemma attr_access_throws_only_on_locked_witness :
  let m : gmap string AnyAttr := {[ "axis"%string := typed TInt32 1 ]} in
  exists a : AnyAttr, m !! "axis"%string = Some a
                      /\ type_index_ a <> typeid_AnyAttr.
Proof.
  intros m.
  apply (attr_access_throws_only_on_locked TBool "axis" m TypeMismatch).
  left. vm_compute. reflexivity.
Defined.

(** ** Node: how accesses to the attribute table compose *)

(** What an access returns depends on its own slot only. *)
Lemma attrs_As_value_lookup (T : scalar) (name : string)
    (m1 m2 : gmap string AnyAttr) :
  m1 !! name = m2 !! name ->
  value_of (attrs_As T name m1) = value_of (attrs_As T name m2).
Proof.
  intros H. unfold attrs_As, attrs_at. rewrite H.
  destruct (m2 !! name) as [a|]; destruct (As T _) as [[w a']|e]; reflexivity.
Qed.

Lemma attr_As_value (T : scalar) (name : string) (n : Node) :
  value_of (attr_As T name n) = value_of (attrs_As T name (attrs_ n)).
Proof.
  unfold attr_As. destruct (attrs_As T name (attrs_ n)) as [[w m]|e]; reflexivity.
Qed.

(** An assignment writes the slot when the access returns, and throws what
    the access throws. *)
Lemma attrs_assign_as_insert (T : scalar) (name : string) (v : cpp T)
    (m : gmap string AnyAttr) :
  attrs_assign T name v m
  = match value_of (attrs_As T name m) with
    | Ok _ => Ok (<[name := typed T v]> m)
    | Err e => Err e
    end.
Proof.
  unfold attrs_assign, attrs_As, attrs_at, As_assign.
  destruct (m !! name) as [a|];
    (destruct (As T _) as [[w a']|e] eqn:HAs; [|reflexivity]);
    cbn [bind value_of fst snd];
    rewrite (As_locks T _ a' w HAs), store_typed, ?insert_insert_eq;
    reflexivity.
Qed.

Lemma attr_assign_as_insert (T : scalar) (name : string) (v : cpp T) (n : Node) :
  attr_assign T name v n
  = match value_of (attr_As T name n) with
    | Ok _ => Ok (set_attrs (<[name := typed T v]> (attrs_ n)) n)
    | Err e => Err e
    end.
Proof.
  unfold attr_assign. rewrite attrs_assign_as_insert, attr_As_value.
  destruct (value_of (attrs_As T name (attrs_ n))); reflexivity.
Qed.

(** X4. Calls that do not touch a slot do not change what an access to
    that slot returns: the same value, or the same error. *)
Theorem untouched_slot_reads_same (ops : list node_op) (n : Node)
    (T : scalar) (name : string) :
  forallb (fun o => negb (touches name o)) ops = true ->
  value_of (attr_As T name (run_node ops n)) = value_of (attr_As T name n).
Proof.
  intros Hops. rewrite !attr_As_value. apply attrs_As_value_lookup.
  exact (run_node_untouched name ops n Hops).
Qed.

Lemma untouched_slot_reads_same_witness :
  let n := run_node [op_attr_assign "scale" TFloat 1065353216%N] Function_new in
  forallb (fun o => negb (touches "scale" o)) [op_SetPbMsg "w";
     op_attr_assign "axis" TInt32 1; op_SetDeleted] = true
  /\ value_of (attr_As TFloat "scale"
       (run_node [op_SetPbMsg "w"; op_attr_assign "axis" TInt32 1; op_SetDeleted] n))
     = Ok 1065353216%N.
Proof.
  intros n.
  assert (H : forallb (fun o => negb (touches "scale" o)) [op_SetPbMsg "w";
                op_attr_assign "axis" TInt32 1; op_SetDeleted] = true)
    by (vm_compute; reflexivity).
  split; [exact H|].
  rewrite (untouched_slot_reads_same _ n TFloat "scale" H).
  vm_compute. reflexivity.
Defined.

Lemma attrs_As_keeps_slot (T : scalar) (name name' : string) (v : cpp T)
    (m m' : gmap string AnyAttr) :
  attrs_As T name' m = Ok (v, m') ->
  is_Some (m !! name) -> is_Some (m' !! name).
Proof.
  intros HAs Hm. destruct (decide (name = name')) as [->|Hne].
  - rewrite (attrs_As_locks T name' v m m' HAs). eauto.
  - rewrite (attrs_As_other T name' name v m m' HAs Hne). exact Hm.
Qed.

Lemma attrs_assign_keeps_slot (T : scalar) (name name' : string) (v : cpp T)
    (m m' : gmap string AnyAttr) :
  attrs_assign T name' v m = Ok m' ->
  is_Some (m !! name) -> is_Some (m' !! name).
Proof.
  intros HAs Hm. destruct (decide (name = name')) as [->|Hne].
  - rewrite (attrs_assign_locks T name' v m m' HAs). eauto.
  - rewrite (attrs_assign_other T name' name v m m' HAs Hne). exact Hm.
Qed.

Lemma exec_node_keeps_slot (name : string) (o : node_op) (n : Node) :
  is_Some (attrs_ n !! name) -> is_Some (attrs_ (exec_node o n) !! name).
Proof.
  intros Hs.
  assert (HA : forall T name' r, attr_As T name' n = Ok r ->
               is_Some (attrs_ r.2 !! name)).
  { intros T name' [v n']. unfold attr_As.
    destruct (attrs_As T name' (attrs_ n)) as [[w m]|e] eqn:Hm; [|discriminate].
    cbn [bind fst snd]. intros [= _ <-]. cbn [attrs_ set_attrs].
    exact (attrs_As_keeps_slot T name name' w _ m Hm Hs). }
  assert (HS : forall T name' v n', attr_assign T name' v n = Ok n' ->
               is_Some (attrs_ n' !! name)).
  { intros T name' v n'. unfold attr_assign.
    destruct (attrs_assign T name' v (attrs_ n)) as [m|e] eqn:Hm; [|discriminate].
    cbn [bind]. intros [= <-]. cbn [attrs_ set_attrs].
    exact (attrs_assign_keeps_slot T name name' v _ m Hm Hs). }
  unfold exec_node.
  destruct o as [name' U|name' U v|pb| |s| | |s|t|l|l|dt|dims|dev|s|l|name'|name' r];
    cbn [exec_node_op]; try exact Hs;
    try (unfold SetDataType, SetDims, SetDevice, SetFuncType, set_subgraph;
         destruct (derived n); exact Hs).
  - destruct (attr_As U name' n) as [r|e] eqn:Hr; [|exact Hs].
    exact (HA U name' r Hr).
  - destruct (attr_assign U name' v n) as [n'|e] eqn:Hr; [|exact Hs].
    exact (HS U name' v n' Hr).
  - unfold SetPbDesc.
    destruct (attr_assign TPointer "pb_desc" pb n) as [n'|e] eqn:Hr; [|exact Hs].
    exact (HS TPointer _ pb n' Hr).
  - unfold pb_desc.
    destruct (attr_As TPointer "pb_desc" n) as [r|e] eqn:Hr; [|exact Hs].
    exact (HA TPointer _ r Hr).
  - unfold SetPbMsg.
    destruct (attr_assign TString "pb_msg" s n) as [n'|e] eqn:Hr; [|exact Hs].
    exact (HS TString _ s n' Hr).
  - unfold pb_msg.
    destruct (attr_As TString "pb_msg" n) as [r|e] eqn:Hr; [|exact Hs].
    exact (HA TString _ r Hr).
  - cbn [attrs_ set_attrs]. exact (attrs_touch_is_Some name' name _ Hs).
  - cbn [attrs_ set_attrs]. rewrite attrs_put_insert.
    destruct (decide (name = name')) as [->|Hne].
    + rewrite lookup_insert_eq. eauto.
    + rewrite lookup_insert_ne by congruence. exact Hs.
Qed.

(** X5. No public call removes an attribute: a slot that exists still
    exists after any sequence of calls.  A slot locked to [T] is still
    locked to [T] after any sequence of calls that does not assign a whole
    attribute to it; the assignment [attr(name) = a] is the call that
    retypes, and it leaves the slot with the type of [a], unread when [a]
    is a new attribute. *)
Theorem attrs_never_removed_retyped_by_assignment_only (ops : list node_op)
    (n : Node) (name : string) :
  (is_Some (attrs_ n !! name) -> is_Some (attrs_ (run_node ops n) !! name))
  /\ (forall T : scalar,
        forallb (fun o => negb (overwrites name o)) ops = true ->
        slot_type name (attrs_ n) = typeid T ->
        slot_type name (attrs_ (run_node ops n)) = typeid T)
  /\ (forall r : attr_rhs,
        slot_type name (attrs_ (run_node (ops ++ [op_attr_put name r]) n))
        = type_index_ (rhs_value r)).
Proof.
  split; [|split].
  - revert n. induction ops as [|o ops IH]; intros n Hs; [exact Hs|].
    change (run_node (o :: ops) n) with (run_node ops (exec_node o n)).
    apply IH. exact (exec_node_keeps_slot name o n Hs).
  - intros T. exact (run_node_keeps_lock T name ops n).
  - intros r. unfold run_node. rewrite foldl_app. cbn [foldl].
    apply exec_node_put_slot_type.
Qed.

Lemma attrs_never_removed_retyped_by_assignment_only_witness :
  let n := run_node [op_attr_assign "axis" TInt32 1] Function_new in
  let ops := [op_attr_assign "axis" TInt64 2; op_attr_As "axis" TBool;
              op_SetPbMsg "w"; op_attr "axis"; op_attr_put "pb_msg" rhs_new;
              op_attr_assign "axis" TInt32 3] in
  slot_type "axis" (attrs_ n) = typeid TInt32
  /\ slot_type "axis" (attrs_ (run_node ops n)) = typeid TInt32
  /\ slot_type "axis" (attrs_ (run_node (ops ++ [op_attr_put "axis" rhs_new]) n))
     = typeid_AnyAttr.
Proof.
  intros n ops.
  assert (H : slot_type "axis" (attrs_ n) = typeid TInt32)
    by (vm_compute; reflexivity).
  assert (Hops : forallb (fun o => negb (overwrites "axis" o)) ops = true)
    by (vm_compute; reflexivity).
  destruct (attrs_never_removed_retyped_by_assignment_only ops n "axis")
    as (_ & Hkeep & Hput).
  split; [exact H|].
  split; [exact (Hkeep TInt32 Hops H)|].
  exact (Hput rhs_new).
Defined.

(** X6. Assignments to two different attributes commute: when the two
    assignments return in one order they return in the other order too,
    with the same node; afterwards both values are read back.  [SetPbDesc]
    and [SetPbMsg] are such a pair. *)
Theorem attr_assign_commute (T1 T2 : scalar) (name1 name2 : string)
    (v1 : cpp T1) (v2 : cpp T2) (n n1 n2 : Node) :
  name1 <> name2 ->
  attr_assign T1 name1 v1 n = Ok n1 ->
  attr_assign T2 name2 v2 n1 = Ok n2 ->
  (exists n1' : Node,
     attr_assign T2 name2 v2 n = Ok n1' /\ attr_assign T1 name1 v1 n1' = Ok n2)
  /\ attr_As T1 name1 n2 = Ok (v1, n2)
  /\ attr_As T2 name2 n2 = Ok (v2, n2).
Proof.
  intros Hne H1 H2.
  rewrite attr_assign_as_insert in H1.
  destruct (value_of (attr_As T1 name1 n)) as [w1|e1] eqn:Hv1; [|discriminate].
  injection H1 as <-.
  rewrite attr_assign_as_insert in H2.
  destruct (value_of (attr_As T2 name2 (set_attrs _ n))) as [w2|e2] eqn:Hv2;
    [|discriminate].
  injection H2 as <-. cbn [attrs_ set_attrs] in *.
  assert (Hv2' : value_of (attr_As T2 name2 n) = Ok w2).
  { rewrite <- Hv2, !attr_As_value. apply attrs_As_value_lookup.
    cbn [attrs_ set_attrs]. rewrite lookup_insert_ne by exact Hne. reflexivity. }
  split.
  - exists (set_attrs (<[name2 := typed T2 v2]> (attrs_ n)) n).
    rewrite !attr_assign_as_insert, Hv2'. split; [reflexivity|].
    assert (Hv1' : value_of (attr_As T1 name1
                     (set_attrs (<[name2 := typed T2 v2]> (attrs_ n)) n)) = Ok w1).
    { rewrite <- Hv1, !attr_As_value. apply attrs_As_value_lookup.
      cbn [attrs_ set_attrs]. rewrite lookup_insert_ne by congruence.
      reflexivity. }
    rewrite Hv1'. cbn [attrs_ set_attrs]. unfold set_attrs. cbn.
    rewrite (insert_insert_ne (attrs_ n) name1 name2) by exact Hne.
    reflexivity.
  - split; apply attr_As_typed; cbn [attrs_ set_attrs].
    + rewrite lookup_insert_ne by congruence. apply lookup_insert_eq.
    + apply lookup_insert_eq.
Qed.

Lemma attr_assign_commute_witness :
  exists n1 n2 n1' : Node,
    SetPbDesc 4096%N Function_new = Ok n1
    /\ SetPbMsg "w" n1 = Ok n2
    /\ SetPbMsg "w" Function_new = Ok n1'
    /\ SetPbDesc 4096%N n1' = Ok n2
    /\ pb_desc n2 = Ok (4096%N, n2)
    /\ pb_msg n2 = Ok ("w"%string, n2).
Proof.
  destruct (SetPbDesc 4096%N Function_new) as [n1|e] eqn:H1;
    [|vm_compute in H1; discriminate].
  destruct (SetPbMsg "w" n1) as [n2|e] eqn:H2.
  2:{ vm_compute in H1. injection H1 as <-. vm_compute in H2. discriminate. }
  assert (Hne : "pb_desc"%string <> "pb_msg"%string) by discriminate.
  destruct (attr_assign_commute TPointer TString _ _ 4096%N "w"%string
              Function_new n1 n2 Hne H1 H2) as ((n1' & Ha & Hb) & Hd & Hm).
  exists n1, n2, n1'. repeat split; assumption.
Defined.

(** X7. The last assignment to an attribute wins: after an assignment that
    returned, a second assignment at the same type returns, gives the node
    that the second assignment alone gives, and its value is what an access
    reads. *)
Theorem attr_assign_overwrite (T : scalar) (name : string) (v1 v2 : cpp T)
    (n n1 : Node) :
  attr_assign T name v1 n = Ok n1 ->
  exists n2 : Node,
    attr_assign T name v2 n1 = Ok n2
    /\ attr_assign T name v2 n = Ok n2
    /\ attr_As T name n2 = Ok (v2, n2).
Proof.
  intros H1. pose proof (attr_assign_roundtrip T name v1 n n1 H1) as Hr.
  rewrite attr_assign_as_insert in H1.
  destruct (value_of (attr_As T name n)) as [w1|e1] eqn:Hv1; [|discriminate].
  injection H1 as <-.
  exists (set_attrs (<[name := typed T v2]> (attrs_ n)) n).
  rewrite !attr_assign_as_insert, Hv1, Hr. cbn [value_of attrs_ set_attrs].
  split.
  - unfold set_attrs. cbn. rewrite insert_insert_eq. reflexivity.
  - split; [reflexivity|]. apply attr_As_typed. apply lookup_insert_eq.
Qed.

Lemma attr_assign_overwrite_witness :
  exists n1 n2 : Node,
    SetPbMsg "old" Value_new = Ok n1
    /\ SetPbMsg "new" n1 = Ok n2
    /\ SetPbMsg "new" Value_new = Ok n2
    /\ pb_msg n2 = Ok ("new"%string, n2).
Proof.
  destruct (SetPbMsg "old" Value_new) as [n1|e] eqn:H1;
    [|vm_compute in H1; discriminate].
  destruct (attr_assign_overwrite TString "pb_msg" "old"%string "new"%string
              Value_new n1 H1) as (n2 & Ha & Hb & Hc).
  exists n1, n2. repeat split; assumption.
Defined.

(** ** Node: which call writes which member *)

(** One call, returning or throwing, writes [attrs_] and the members of
    the subclass at most, besides the member its own name says. *)
Lemma exec_node_shape (o : node_op) (n : Node) :
  exists (m : gmap string AnyAttr) (d : Derived),
    exec_node o n
    = {| id_ := id_ n;
         name_ := match o with op_SetName s => s | _ => name_ n end;
         type_ := match o with op_SetType t => t | _ => type_ n end;
         deleted_ := match o with op_SetDeleted => true | _ => deleted_ n end;
         attrs_ := m;
         inlinks := match o with op_set_inlinks l => l | _ => inlinks n end;
         outlinks := match o with op_set_outlinks l => l | _ => outlinks n end;
         derived := d |}
    /\ class_of (exec_node o n) = class_of n.
Proof.
  destruct n as [i nm ty del tab il ol d].
  unfold exec_node, class_of.
  destruct o as [name' U|name' U v|pb| |s| | |s|t|l|l|dt|dims|dev|s|l|name'|name' r];
    cbn [exec_node_op id_ name_ type_ deleted_ inlinks outlinks derived];
    unfold SetPbDesc, pb_desc, SetPbMsg, pb_msg, attr_As, attr_assign,
      SetDataType, SetDims, SetDevice, SetFuncType, set_subgraph;
    cbn [attrs_ derived];
    try match goal with
        | |- context [attrs_As ?T ?k ?m] =>
            destruct (attrs_As T k m) as [[? ?]|?]
        | |- context [attrs_assign ?T ?k ?v ?m] =>
            destruct (attrs_assign T k v m) as [?|?]
        end;
    try destruct d;
    cbn; eexists _, _; split; reflexivity.
Qed.

Lemma run_node_cons (o : node_op) (ops : list node_op) (n : Node) :
  run_node (o :: ops) n = run_node ops (exec_node o n).
Proof. reflexivity. Qed.

(** X8. The tombstone is never cleared: after any sequence of public
    calls [deleted()] is true exactly when it was true before or
    [SetDeleted()] is among the calls. *)
Theorem deleted_is_sticky (ops : list node_op) (n : Node) :
  deleted (run_node ops n) = deleted n || existsb is_SetDeleted ops.
Proof.
  revert n. induction ops as [|o ops IH]; intros n.
  - cbn. rewrite orb_false_r. reflexivity.
  - rewrite run_node_cons, IH. cbn [existsb].
    destruct (exec_node_shape o n) as (m & d & -> & _). unfold deleted.
    cbn [deleted_]. destruct o; cbn [is_SetDeleted];
      rewrite ?orb_true_r, ?orb_false_l; destruct (deleted_ n); reflexivity.
Qed.

(** X9. No public call on a node changes [id()] or the class of the
    object, whatever the calls are and whether they return or throw. *)
Theorem id_and_class_are_fixed (ops : list node_op) (n : Node) :
  id (run_node ops n) = id n /\ class_of (run_node ops n) = class_of n.
Proof.
  revert n. induction ops as [|o ops IH]; intros n; [split; reflexivity|].
  rewrite run_node_cons. destruct (IH (exec_node o n)) as [-> ->].
  destruct (exec_node_shape o n) as (m & d & Heq & Hc).
  split; [rewrite Heq; reflexivity | exact Hc].
Qed.

(** X10. After any sequence of public calls, [type()] returns the argument
    of the last [SetType] among them and [name()] the argument of the last
    [SetName], or what they returned before when there is no such call. *)
Theorem type_and_name_follow_last_setter (ops : list node_op) (n : Node) :
  type (run_node ops n) = final_type ops (type n)
  /\ name (run_node ops n) = final_name ops (name n).
Proof.
  revert n. induction ops as [|o ops IH]; intros n; [split; reflexivity|].
  rewrite run_node_cons. destruct (IH (exec_node o n)) as [-> ->].
  destruct (exec_node_shape o n) as (m & d & -> & _). unfold type, name.
  cbn [type_ name_]. destruct o; split; reflexivity.
Qed.

Lemma run_node_class (ops : list node_op) (n : Node) :
  class_of (run_node ops n) = class_of n.
Proof.
  revert n. induction ops as [|o ops IH]; intros n; [reflexivity|].
  rewrite run_node_cons, IH.
  destruct (exec_node_shape o n) as (m & d & _ & Hc). exact Hc.
Qed.

Lemma run_node_type (ops : list node_op) (n : Node) :
  type (run_node ops n) = final_type ops (type n).
Proof.
  revert n. induction ops as [|o ops IH]; intros n; [reflexivity|].
  rewrite run_node_cons, IH.
  destruct (exec_node_shape o n) as (m & d & -> & _). unfold type.
  cbn [type_]. destruct o; reflexivity.
Qed.

Lemma final_type_no_SetType (ops : list node_op) (t : NodeType) :
  forallb (fun o => negb (is_SetType o)) ops = true -> final_type ops t = t.
Proof.
  revert t. induction ops as [|o ops IH]; intros t; [reflexivity|].
  cbn [forallb]. intros [Ho Hops]%andb_true_iff.
  destruct o; cbn [final_type is_SetType negb] in *;
    first [discriminate | exact (IH t Hops)].
Qed.

Lemma class_type_inj (c1 c2 : Class) : class_type c1 = class_type c2 -> c1 = c2.
Proof. destruct c1, c2; first [reflexivity | discriminate]. Qed.

Lemma Node_As_same_class (n : Node) : Node_As (class_of n) n = Ok n.
Proof.
  unfold Node_As. rewrite bool_decide_eq_true_2 by (right; reflexivity).
  reflexivity.
Qed.

(** X11. On a node whose type is the one its constructor set, and as long
    as [SetType] is not called, a type check that holds tells the class of
    the object: the cast [As<Subclass>()] to the class the check names does
    not meet a null pointer. *)
Theorem type_check_guards_downcast (ops : list node_op) (n : Node) :
  tag_matches n ->
  forallb (fun o => negb (is_SetType o)) ops = true ->
  let n' := run_node ops n in
  tag_matches n'
  /\ (IsValue n' = true -> Node_As CValue n' = Ok n')
  /\ (IsFunction n' = true -> Node_As CFunction n' = Ok n')
  /\ (IsFunctionBlock n' = true -> Node_As CFunctionBlock n' = Ok n').
Proof.
  intros Htag Hops n'.
  assert (Htag' : tag_matches n').
  { unfold tag_matches, n'.
    rewrite (run_node_type ops n), (final_type_no_SetType ops _ Hops),
      (run_node_class ops n).
    exact Htag. }
  split; [exact Htag'|].
  unfold IsValue, IsFunction, IsFunctionBlock. unfold tag_matches, type in Htag'.
  repeat split; intros H%bool_decide_eq_true_1; rewrite H in Htag'.
  - rewrite (class_type_inj CValue _ Htag'). apply Node_As_same_class.
  - rewrite (class_type_inj CFunction _ Htag'). apply Node_As_same_class.
  - rewrite (class_type_inj CFunctionBlock _ Htag'). apply Node_As_same_class.
Qed.

Lemma type_check_guards_downcast_witness :
  let n' := run_node [op_SetName "x"; op_SetDims [2; 3]; op_SetPbMsg "w"]
              Value_new in
  IsValue n' = true /\ Node_As CValue n' = Ok n'.
Proof.
  intros n'.
  assert (H1 : tag_matches Value_new) by reflexivity.
  assert (H2 : forallb (fun o => negb (is_SetType o))
                 [op_SetName "x"; op_SetDims [2; 3]; op_SetPbMsg "w"] = true)
    by reflexivity.
  assert (H3 : IsValue n' = true) by (vm_compute; reflexivity).
  split; [exact H3|].
  exact (proj1 (proj2 (type_check_guards_downcast _ Value_new H1 H2)) H3).
Defined.

(** With [SetType] the check and the class can disagree: the check for a
    value holds on a function object, and the cast meets a null pointer. *)
Lemma SetType_breaks_type_check :
  IsValue (SetType kValue Function_new) = true
  /\ Node_As CValue (SetType kValue Function_new) = Err BadCast.
Proof. split; reflexivity. Qed.

(** ** Value and Function: the members of the subclasses *)

Lemma exec_node_derived (o : node_op) (n : Node) :
  writes_derived o = false -> derived (exec_node o n) = derived n.
Proof.
  destruct n as [i nm ty del tab il ol d]. unfold exec_node.
  destruct o as [name' U|name' U v|pb| |s| | |s|t|l|l|dt|dims|dev|s|l|name'|name' r];
    cbn [exec_node_op writes_derived]; try discriminate; intros _;
    unfold SetPbDesc, pb_desc, SetPbMsg, pb_msg, attr_As, attr_assign;
    cbn [attrs_];
    try match goal with
        | |- context [attrs_As ?T ?k ?m] =>
            destruct (attrs_As T k m) as [[? ?]|?]
        | |- context [attrs_assign ?T ?k ?v ?m] =>
            destruct (attrs_assign T k v m) as [?|?]
        end;
    reflexivity.
Qed.

Lemma run_node_derived (ops : list node_op) (n : Node) :
  forallb (fun o => negb (writes_derived o)) ops = true ->
  derived (run_node ops n) = derived n.
Proof.
  revert n. induction ops as [|o ops IH]; intros n; [reflexivity|].
  cbn [forallb]. intros [Ho Hops]%andb_true_iff. apply negb_true_iff in Ho.
  rewrite run_node_cons, (IH _ Hops). exact (exec_node_derived o n Ho).
Qed.

(** X12. On an object of class [Value] the three setters return, and the
    data type, the dimensions and the device then read back are the ones
    set, also after any sequence of calls that are not setters of a
    subclass member (attribute accesses, [SetName], [SetType],
    [SetDeleted], assignments to the links). *)
Theorem Value_members_persist (n : Node) (dt : DataType) (d : Dims)
    (dev : Device) (ops : list node_op) :
  class_of n = CValue ->
  forallb (fun o => negb (writes_derived o)) ops = true ->
  exists n1 n2 n3 : Node,
    SetDataType dt n = Ok n1
    /\ SetDims d n1 = Ok n2
    /\ SetDevice dev n2 = Ok n3
    /\ data_type (run_node ops n3) = Ok (Some dt)
    /\ dims (run_node ops n3) = Ok d
    /\ device (run_node ops n3) = Ok (Some dev).
Proof.
  intros Hc Hops. unfold class_of in Hc.
  destruct (derived n) as [|dt0 d0 dev0|s|l] eqn:Hd; try discriminate.
  exists (set_derived (Value_ (Some dt) d0 dev0) n),
         (set_derived (Value_ (Some dt) d dev0) n),
         (set_derived (Value_ (Some dt) d (Some dev)) n).
  unfold SetDataType, SetDims, SetDevice, data_type, dims, device.
  rewrite (run_node_derived ops _ Hops), Hd. cbn [derived set_derived].
  repeat split.
Qed.

Lemma Value_members_persist_witness :
  exists n3 : Node,
    (try n1 <- SetDataType kFloat32 Value_new in
     try n2 <- SetDims [2; 3] n1 in SetDevice 1%N n2) = Ok n3
    /\ dims (run_node [op_SetName "x"; op_SetPbMsg "w"; op_SetDeleted] n3)
       = Ok [2; 3].
Proof.
  assert (Hc : class_of Value_new = CValue) by reflexivity.
  assert (Hops : forallb (fun o => negb (writes_derived o))
                   [op_SetName "x"; op_SetPbMsg "w"; op_SetDeleted] = true)
    by reflexivity.
  destruct (Value_members_persist Value_new kFloat32 [2; 3] 1%N _ Hc Hops)
    as (n1 & n2 & n3 & H1 & H2 & H3 & _ & Hd & _).
  exists n3. rewrite H1. cbn [bind]. rewrite H2. cbn [bind].
  split; [exact H3 | exact Hd].
Defined.

(** X13. On an object of class [Function], [SetFuncType] returns and
    [func_type()] then returns the operator type that was set, also after
    any sequence of calls that are not setters of a subclass member. *)
Theorem Function_func_type_persists (n : Node) (s : string)
    (ops : list node_op) :
  class_of n = CFunction ->
  forallb (fun o => negb (writes_derived o)) ops = true ->
  exists n1 : Node,
    SetFuncType s n = Ok n1
    /\ func_type (run_node ops n1) = Ok s
    /\ class_of (run_node ops n1) = CFunction.
Proof.
  intros Hc Hops. unfold class_of in *.
  destruct (derived n) as [|dt0 d0 dev0|s0|l] eqn:Hd; try discriminate.
  exists (set_derived (Function_ s) n).
  unfold SetFuncType, func_type.
  rewrite (run_node_derived ops _ Hops), Hd. cbn [derived set_derived].
  repeat split.
Qed.

Lemma Function_func_type_persists_witness :
  exists n1 : Node,
    SetFuncType "mul" Function_new = Ok n1
    /\ func_type (run_node [op_SetType kValue; op_SetPbDesc 64%N] n1) = Ok "mul"%string.
Proof.
  assert (Hc : class_of Function_new = CFunction) by reflexivity.
  assert (Hops : forallb (fun o => negb (writes_derived o))
                   [op_SetType kValue; op_SetPbDesc 64%N] = true)
    by reflexivity.
  destruct (Function_func_type_persists Function_new "mul" _ Hc Hops)
    as (n1 & H1 & H2 & _).
  exists n1. split; [exact H1 | exact H2].
Defined.

(** ** Node: [pb_msg] before any [SetPbMsg] *)

(** X14. On a node whose slot "pb_msg" is unread or holds the empty
    string, and after any calls [ops] that neither write the slot nor
    access it at another type, [pb_msg()] returns the empty string and
    locks the slot to [std::string]: a second [pb_msg()] returns the empty
    string again and changes nothing, and an access to the slot at any
    other type fails the enforce, then and after any further calls that do
    not assign a whole attribute to the slot. *)
Theorem pb_msg_unset_returns_empty (ops : list node_op) (n0 : Node) :
  clear_slot TString "pb_msg" (attrs_ n0) ->
  forallb (fun o => negb (disturbs TString "pb_msg" o)) ops = true ->
  exists n' : Node,
    pb_msg (run_node ops n0) = Ok (EmptyString, n')
    /\ pb_msg n' = Ok (EmptyString, n')
    /\ (forall (ops' : list node_op) (U : scalar), U <> TString ->
          forallb (fun o => negb (overwrites "pb_msg" o)) ops' = true ->
          attr_As U "pb_msg" (run_node ops' n') = Err TypeMismatch).
Proof.
  intros H0 Hops.
  destruct (first_read_locks TString "pb_msg" ops n0 H0 Hops)
    as (n' & Hr & Hagain & _ & Hlater).
  exists n'. split; [exact Hr|]. split; [exact Hagain | exact Hlater].
Qed.

Lemma pb_msg_unset_returns_empty_witness :
  exists n' : Node,
    pb_msg (run_node [op_SetPbDesc 64%N; op_pb_msg; op_SetName "fc"]
              Function_new)
      = Ok (EmptyString, n')
    /\ attr_As TPointer "pb_msg"
         (run_node [op_pb_desc; op_attr_put "pb_desc" rhs_new] n')
       = Err TypeMismatch.
Proof.
  assert (H0 : clear_slot TString "pb_msg" (attrs_ Function_new))
    by (left; vm_compute; reflexivity).
  assert (H1 : forallb (fun o => negb (disturbs TString "pb_msg" o))
                 [op_SetPbDesc 64%N; op_pb_msg; op_SetName "fc"] = true)
    by (vm_compute; reflexivity).
  destruct (pb_msg_unset_returns_empty _ Function_new H0 H1)
    as (n' & Hr & _ & Hlater).
  exists n'. split; [exact Hr|].
  apply Hlater; [discriminate | vm_compute; reflexivity].
Defined.

(** ** Node: labels are unambiguous *)

Lemma append_cons (c : ascii) (s1 s2 : string) :
  String.String c s1 +:+ s2 = String.String c (s1 +:+ s2).
Proof. reflexivity. Qed.

Lemma append_nil (s : string) : EmptyString +:+ s = s.
Proof. reflexivity. Qed.

Lemma lacks_app (c : ascii) (s1 s2 : string) :
  lacks c (s1 +:+ s2) = lacks c s1 && lacks c s2.
Proof.
  induction s1 as [|c' s1 IH]; [reflexivity|].
  rewrite append_cons. cbn [lacks]. rewrite IH, andb_assoc. reflexivity.
Qed.

Lemma pretty_N_go_lacks (c : ascii) (x : N) (s : string) :
  (forall k : N, Ascii.eqb (pretty_N_char k) c = false) ->
  lacks c s = true -> lacks c (pretty_N_go x s) = true.
Proof.
  intros Hc. revert s. induction (N.lt_wf_0 x) as [x _ IH]; intros s Hs.
  assert (x = 0 \/ 0 < x)%N as [->|Hx] by lia.
  - rewrite pretty_N_go_0. exact Hs.
  - rewrite pretty_N_go_step by exact Hx. apply IH.
    + apply N.div_lt; [exact Hx | reflexivity].
    + cbn [lacks]. rewrite Hc, Hs. reflexivity.
Qed.

Lemma to_string_lacks (c : ascii) (z : Z) :
  (forall k : N, Ascii.eqb (pretty_N_char k) c = false) ->
  Ascii.eqb "-" c = false ->
  lacks c (to_string z) = true.
Proof.
  intros Hc Hd.
  assert (H0 : lacks c "0" = true).
  { pose proof (Hc 0%N) as H0. change (pretty_N_char 0) with "0"%char in H0.
    cbn [lacks]. rewrite H0. reflexivity. }
  assert (HN : forall x : N, lacks c (pretty x) = true).
  { intros x. unfold pretty, pretty_N. destruct (decide (x = 0%N)).
    - exact H0.
    - apply pretty_N_go_lacks; [exact Hc | reflexivity]. }
  unfold to_string, pretty, pretty_Z. destruct z as [|p|p].
  - exact H0.
  - apply HN.
  - rewrite append_cons, append_nil. cbn [lacks]. rewrite Hd. apply HN.
Qed.

Lemma digit_not_lparen (k : N) : Ascii.eqb (pretty_N_char k) "(" = false.
Proof. unfold pretty_N_char. repeat case_match; reflexivity. Qed.

Lemma digit_not_rparen (k : N) : Ascii.eqb (pretty_N_char k) ")" = false.
Proof. unfold pretty_N_char. repeat case_match; reflexivity. Qed.

(** A string splits in one way at the last occurrence of a character, and
    in one way at the first. *)
Lemma split_last (c : ascii) (a1 a2 b1 b2 : string) :
  lacks c b1 = true -> lacks c b2 = true ->
  a1 +:+ String.String c b1 = a2 +:+ String.String c b2 ->
  a1 = a2 /\ b1 = b2.
Proof.
  intros H1 H2. revert a2.
  assert (Hno : forall a b b', lacks c b' = true ->
                b' <> a +:+ String.String c b).
  { intros a b b' Hb' ->. rewrite lacks_app in Hb'. cbn [lacks] in Hb'.
    rewrite Ascii.eqb_refl, andb_false_r in Hb'. discriminate. }
  induction a1 as [|x a1 IH]; intros [|y a2];
    rewrite ?append_cons, ?append_nil.
  - intros [= ->]. split; reflexivity.
  - intros [= <- E]. destruct (Hno a2 b2 b1 H1 E).
  - intros [= -> E]. destruct (Hno a1 b1 b2 H2 (eq_sym E)).
  - intros [= -> E]. destruct (IH a2 E) as [-> ->]. split; reflexivity.
Qed.

Lemma split_first (c : ascii) (a1 a2 b1 b2 : string) :
  lacks c a1 = true -> lacks c a2 = true ->
  a1 +:+ String.String c b1 = a2 +:+ String.String c b2 ->
  a1 = a2 /\ b1 = b2.
Proof.
  revert a2. induction a1 as [|x a1 IH]; intros [|y a2];
    rewrite ?append_cons, ?append_nil; cbn [lacks].
  - intros _ _ [= ->]. split; reflexivity.
  - intros _ H2 [= <- _]. rewrite Ascii.eqb_refl in H2. discriminate.
  - intros H1 _ [= -> _]. rewrite Ascii.eqb_refl in H1. discriminate.
  - intros [_ H1]%andb_true_iff [_ H2]%andb_true_iff [= -> E].
    destruct (IH a2 H1 H2 E) as [-> ->]. split; reflexivity.
Qed.

Lemma repr_base (n : Node) :
  overrides_repr n = false ->
  repr n = name n +:+ String.String "(" (to_string (id n) +:+ ")").
Proof.
  unfold overrides_repr, repr.
  destruct (derived n); first [reflexivity | discriminate].
Qed.

Lemma repr_block_lacks_lparen (n : Node) :
  overrides_repr n = true -> lacks "(" (repr n) = true.
Proof.
  intros H. rewrite (repr_block_any_name n H), lacks_app.
  rewrite (to_string_lacks "(" _ digit_not_lparen eq_refl). reflexivity.
Qed.

Lemma repr_base_has_lparen (n : Node) :
  overrides_repr n = false -> lacks "(" (repr n) = false.
Proof.
  intros H. rewrite (repr_base n H), lacks_app. cbn [lacks].
  rewrite Ascii.eqb_refl. apply andb_false_r.
Qed.

(** X15. The label tells the node apart: two nodes with the same [repr()]
    are both blocks or both not, have the same identity and, when they are
    not blocks, the same name, whatever characters the names hold. *)
Theorem repr_unambiguous (n1 n2 : Node) :
  repr n1 = repr n2 ->
  overrides_repr n1 = overrides_repr n2
  /\ id n1 = id n2
  /\ (overrides_repr n1 = false -> name n1 = name n2).
Proof.
  intros H.
  destruct (overrides_repr n1) eqn:H1, (overrides_repr n2) eqn:H2.
  - split; [reflexivity|]. split; [|discriminate].
    exact (repr_block_inj n1 n2 H1 H2 H).
  - pose proof (repr_block_lacks_lparen n1 H1) as Ha.
    pose proof (repr_base_has_lparen n2 H2) as Hb. congruence.
  - pose proof (repr_base_has_lparen n1 H1) as Ha.
    pose proof (repr_block_lacks_lparen n2 H2) as Hb. congruence.
  - rewrite (repr_base n1 H1), (repr_base n2 H2) in H.
    assert (Hl : forall z, lacks "(" (to_string z +:+ ")") = true).
    { intros z. rewrite lacks_app.
      rewrite (to_string_lacks "(" _ digit_not_lparen eq_refl). reflexivity. }
    destruct (split_last "(" _ _ _ _ (Hl _) (Hl _) H) as [Hn Hd].
    assert (Hr : forall z, lacks ")" (to_string z) = true).
    { intros z. exact (to_string_lacks ")" _ digit_not_rparen eq_refl). }
    destruct (split_first ")" _ _ EmptyString EmptyString (Hr _) (Hr _) Hd)
      as [Hz _].
    split; [reflexivity|]. split; [exact (to_string_inj _ _ Hz)|].
    intros _. exact Hn.
Qed.

Lemma repr_unambiguous_witness :
  let n1 := SetName "conv(1)" (set_id 2 Function_new) in
  let n2 := SetDeleted (SetName "conv(1)" (set_id 2 Value_new)) in
  repr n1 = repr n2 /\ id n1 = id n2 /\ name n1 = name n2.
Proof.
  intros n1 n2.
  assert (H : repr n1 = repr n2) by (vm_compute; reflexivity).
  split; [exact H|].
  destruct (repr_unambiguous n1 n2 H) as (_ & Hid & Hname).
  split; [exact Hid|]. apply Hname. reflexivity.
Defined.

(** ** Node: the links *)

(** X16. The links of a node are written by assignment to them only:
    after any sequence of public calls [inlinks] and [outlinks] hold the
    lists last assigned, in the order given, or what they held before;
    [SetDeleted], [SetType], [SetName] and the attribute accesses leave
    the edges as they are. *)
Theorem links_follow_last_assignment (ops : list node_op) (n : Node) :
  inlinks (run_node ops n) = final_inlinks ops (inlinks n)
  /\ outlinks (run_node ops n) = final_outlinks ops (outlinks n).
Proof.
  revert n. induction ops as [|o ops IH]; intros n; [split; reflexivity|].
  rewrite run_node_cons. destruct (IH (exec_node o n)) as [-> ->].
  destruct (exec_node_shape o n) as (m & d & -> & _).
  cbn [inlinks outlinks]. destruct o; split; reflexivity.
Qed.
